(** * mcp-uploadthing: the tool handlers of the MCP server, embedded in Rocq

    The development follows [src/mcp.ts] (version 0.0.2: the tools
    [upload-files] and [upload-files-from-urls]), the earlier [mcp.ts]
    (version 0.0.1: the tool [upload-file]) and [index.ts] (process start-up).

    The handlers are [async] functions that read files, call the UploadThing
    client and build a response envelope.  They are embedded as computations
    in a small monad that records the calls made to the outside world (the
    file system and the upload service) and that can complete normally or
    abruptly (a JavaScript [throw] or a rejected promise).  What the
    handlers write to the error stream with [console.error] is left out. *)

From Stdlib Require Import String Ascii ZArith.
From stdpp Require Import base list strings gmap.

(** ** JavaScript values the handlers only observe *)

Module Js.

(** A value that comes from outside (an [fs] error, a provider payload, a
    provider error).  The code observes three things of such a value: whether
    it is an [Error] instance, its [message], and what [JSON.stringify]
    prints for it. *)
Record JsValue := {
  instanceof_Error : bool;
  message : string;
  json : string;
}.

(** [new Error(msg)]: an [Error] instance; its own properties are not
    enumerable, so [JSON.stringify] prints an empty object. *)
Definition new_Error (msg : string) : JsValue :=
  {| instanceof_Error := true; message := msg; json := "{}" |}.

(** The [TypeError] raised by a property read on [undefined]. *)
Definition TypeError_undefined (prop : string) : JsValue :=
  new_Error ("Cannot read properties of undefined (reading '" +:+ prop +:+ "')").

(** [JSON.stringify(v)] *)
Definition JSON_stringify (v : JsValue) : string := json v.

(** [JSON.stringify] of a field that holds a value or [null]. *)
Definition JSON_stringify_nullable (o : option JsValue) : string :=
  match o with
  | Some v => JSON_stringify v
  | None => "null"
  end.

(** [error instanceof Error ? error.message : "Unknown error"] *)
Definition message_or_unknown (error : JsValue) : string :=
  if instanceof_Error error then message error else "Unknown error".

(** A value of a template literal that may be [undefined]. *)
Definition template_string (o : option string) : string :=
  match o with
  | Some s => s
  | None => "undefined"
  end.

(** The line feed of a template literal that spans lines. *)
Definition LF : string := String (ascii_of_nat 10) EmptyString.

(** [n] blanks of indentation inside a template literal. *)
Fixpoint blanks (n : nat) : string :=
  match n with
  | O => EmptyString
  | S k => String (ascii_of_nat 32) (blanks k)
  end.

(** ** Completions *)

(** How an evaluation ends: with a value, or abruptly with a thrown value. *)
Inductive Completion (A : Type) : Type :=
  | Normal (a : A)
  | Throw (v : JsValue).
Arguments Normal {A} a.
Arguments Throw {A} v.

(** [arr.map((x, idx) => f idx x)] for a callback that may throw: the first
    throw ends the whole map. *)
Fixpoint Array_map_from {A B : Type} (f : nat -> A -> Completion B)
    (idx : nat) (arr : list A) : Completion (list B) :=
  match arr with
  | [] => Normal []
  | x :: rest =>
      match f idx x with
      | Throw v => Throw v
      | Normal y =>
          match Array_map_from f (S idx) rest with
          | Throw v => Throw v
          | Normal ys => Normal (y :: ys)
          end
      end
  end.

Definition Array_map {A B : Type} (f : nat -> A -> Completion B)
    (arr : list A) : Completion (list B) :=
  Array_map_from f 0 arr.

(** [arr.join(sep)] on an array of strings. *)
Definition Array_join (sep : string) (arr : list string) : string :=
  String.concat sep arr.

(** ** The outside world and the calls made to it *)

Definition Buffer : Type := list Byte.byte.

(** The [File] object built from a buffer, a name and a MIME type. *)
Record File := {
  name : string;
  type : string;
  bytes : Buffer;
}.

(** A character a [Blob] keeps in its type: U+0020 to U+007E. *)
Definition type_char_allowed (c : ascii) : bool :=
  (32 <=? nat_of_ascii c) && (nat_of_ascii c <=? 126).

(** One character in ASCII lower case. *)
Definition ascii_lowercase (c : ascii) : ascii :=
  if (65 <=? nat_of_ascii c) && (nat_of_ascii c <=? 90)
  then ascii_of_nat (nat_of_ascii c + 32)
  else c.

Fixpoint string_forallb (f : ascii -> bool) (s : string) : bool :=
  match s with
  | EmptyString => true
  | String c rest => f c && string_forallb f rest
  end.

Fixpoint string_map (f : ascii -> ascii) (s : string) : string :=
  match s with
  | EmptyString => EmptyString
  | String c rest => String (f c) (string_map f rest)
  end.

(** The type a [Blob], and so a [File], keeps of the [type] option it is
    built with: the empty string when the option holds a character outside
    U+0020 to U+007E, the option in ASCII lower case otherwise. *)
Definition Blob_type (t : string) : string :=
  if string_forallb type_char_allowed t
  then string_map ascii_lowercase t
  else EmptyString.

(** [new File([buffer], fileName, { type: fileType })]: the name is kept as
    given, the type as a [Blob] keeps it. *)
Definition new_File (buffer : Buffer) (fileName fileType : string) : File :=
  {| name := fileName; type := Blob_type fileType; bytes := buffer |}.

(** One entry of what the upload client resolves with: the provider payload
    in [data] or the provider error in [error], the other being [null]. *)
Record UploadResult := {
  data : option JsValue;
  error : option JsValue;
}.

(** The UploadThing client: it holds the token it was built with. *)
Record UTApi := {
  token : string;
}.

(** The collaborators the handlers call.  A promise that rejects is the
    right injection. *)
Record World := {
  fs_readFile : string -> Buffer + JsValue;
  uploadFiles_one : UTApi -> File -> UploadResult + JsValue;
  uploadFiles : UTApi -> list File -> list UploadResult + JsValue;
  uploadFilesFromUrl : UTApi -> list string -> list UploadResult + JsValue;
  (** the check behind zod's [z.string().url()] *)
  is_url : string -> bool;
}.

(** The calls a handler makes, in the order it starts them. *)
Inductive Event : Type :=
  | EvReadFile (path : string)
  | EvUploadFile (file : File)
  | EvUploadFiles (files : list File)
  | EvUploadFilesFromUrl (urls : list string).

(** ** The monad of the handlers *)

(** An asynchronous computation: the calls it made and how it ended. *)
Definition Async (A : Type) : Type := list Event * Completion A.

Definition ret {A : Type} (a : A) : Async A := ([], Normal a).

Definition throw {A : Type} (v : JsValue) : Async A := ([], Throw v).

Definition bind {A B : Type} (m : Async A) (k : A -> Async B) : Async B :=
  match m with
  | (tr, Normal a) => let '(tr', c) := k a in (tr ++ tr', c)
  | (tr, Throw v) => (tr, Throw v)
  end.

(** [try { m } catch (e) { handler e }] *)
Definition try_catch {A : Type} (m : Async A) (handler : JsValue -> Async A)
    : Async A :=
  match m with
  | (tr, Throw v) => let '(tr', c) := handler v in (tr ++ tr', c)
  | (tr, Normal a) => (tr, Normal a)
  end.

(** A synchronous evaluation inside an [async] function. *)
Definition lift {A : Type} (c : Completion A) : Async A := ([], c).

(** An awaited call to a collaborator. *)
Definition await {A : Type} (ev : Event) (r : A + JsValue) : Async A :=
  ([ev],
   match r with
   | inl a => Normal a
   | inr v => Throw v
   end).

Definition trace {A : Type} (m : Async A) : list Event := m.1.
Definition outcome {A : Type} (m : Async A) : Completion A := m.2.

(** What [Promise.allSettled] gives for one promise. *)
Inductive Settled (A : Type) : Type :=
  | Fulfilled (value : A)
  | Rejected (reason : JsValue).
Arguments Fulfilled {A} value.
Arguments Rejected {A} reason.

Definition is_rejected {A : Type} (s : Settled A) : bool :=
  match s with
  | Rejected _ => true
  | Fulfilled _ => false
  end.

Definition fulfilled_value {A : Type} (s : Settled A) : option A :=
  match s with
  | Fulfilled a => Some a
  | Rejected _ => None
  end.

(** [JSON.stringify(file.reason)]: the field is [undefined] on a fulfilled
    entry, which a template literal prints as such. *)
Definition reason_string {A : Type} (s : Settled A) : string :=
  match s with
  | Rejected r => JSON_stringify r
  | Fulfilled _ => "undefined"
  end.

Definition settle {A : Type} (p : Async A) : Async (Settled A) :=
  (p.1,
   Normal match p.2 with
          | Normal a => Fulfilled a
          | Throw v => Rejected v
          end).

(** [Promise.allSettled(promises)]: every promise runs to its end, none
    makes the whole fail. *)
Fixpoint Promise_allSettled {A : Type} (promises : list (Async A))
    : Async (list (Settled A)) :=
  match promises with
  | [] => ret []
  | p :: rest =>
      bind (settle p) (fun s =>
      bind (Promise_allSettled rest) (fun ss =>
      ret (s :: ss)))
  end.

End Js.

Export Js.

#[global] Instance Async_ret : MRet Async := @ret.
#[global] Instance Async_bind : MBind Async := fun A B k m => bind m k.

(** ** The response envelope and the tool inputs *)

(** [{ type: "text", text }] *)
Record ContentItem := {
  content_type : string;
  text : string;
}.

(** [{ content, isError? }]: the handlers leave [isError] out of a success
    response. *)
Record ToolResponse := {
  content : list ContentItem;
  isError : option bool;
}.

(** Whether a client reads the response as an error: an absent flag counts
    as [false]. *)
Definition is_error (r : ToolResponse) : bool :=
  match isError r with
  | Some b => b
  | None => false
  end.

Definition text_content (s : string) : list ContentItem :=
  [ {| content_type := "text"; text := s |} ].

(** One element of the [files] input of [upload-files]. *)
Record FileParam := {
  filePath : string;
  fileName : string;
  fileType : string;
}.

(** ** Tool inputs as they arrive, their schemas, and the server object *)

(** The arguments of a tool call as the client sends them. *)
#[warnings="-register-all"] Inductive Json : Type :=
  | JNull
  | JBool (b : bool)
  | JNumber (n : Z)  (* no schema of this server takes a number *)
  | JString (s : string)
  | JArray (items : list Json)
  | JObject (fields : gmap string Json).

Module Zod.

(** Modelled from the spec: zod itself is a library outside [src/]; a schema
    is the parser that either accepts an input and gives its typed value, or
    rejects it ("validates its input against a declared schema"). *)
Definition Schema (A : Type) : Type := Json -> option A.

(** [z.string()] *)
Definition z_string : Schema string :=
  fun j =>
    match j with
    | JString s => Some s
    | _ => None
    end.

(** [z.string().url()]: a string that passes the URL check. *)
Definition z_string_url (w : World) : Schema string :=
  fun j =>
    match j with
    | JString s => if is_url w s then Some s else None
    | _ => None
    end.

(** [z.array(item)]: every element must parse. *)
Definition z_array {A : Type} (item : Schema A) : Schema (list A) :=
  fun j =>
    match j with
    | JArray items => mapM item items
    | _ => None
    end.

(** The property [key] of an object, parsed by [s]; a missing property is
    rejected (none of the schemas of this server is optional). *)
Definition z_property {A : Type} (key : string) (s : Schema A)
    (fields : gmap string Json) : option A :=
  fields !! key ≫= s.

(** [z.object({ filePath: z.string(), fileName: z.string(), fileType: z.string() })] *)
Definition z_file_param : Schema FileParam :=
  fun j =>
    match j with
    | JObject fields =>
        p ← z_property "filePath" z_string fields;
        n ← z_property "fileName" z_string fields;
        t ← z_property "fileType" z_string fields;
        Some {| filePath := p; fileName := n; fileType := t |}
    | _ => None
    end.

End Zod.

(** A registered tool: its name, its description, the schema of its
    parameters and its callback. *)
Record Tool := {
  tool_name : string;
  tool_description : string;
  tool_params : Type;
  tool_schema : World -> Zod.Schema tool_params;
  tool_callback : World -> tool_params -> Async ToolResponse;
}.

(** The [McpServer] object with the tools registered on it, latest first. *)
Record McpServer := {
  server_name : string;
  server_version : string;
  registered : list Tool;
}.

(** [new McpServer({ name, version })] *)
Definition new_McpServer (name version : string) : McpServer :=
  {| server_name := name; server_version := version; registered := [] |}.

(** [mcpServer.tool(name, description, schema, callback)] *)
Definition McpServer_tool (server : McpServer) (t : Tool) : McpServer :=
  {| server_name := server_name server;
     server_version := server_version server;
     registered := t :: registered server |}.

(** How a tool call ends at the server. *)
Inductive ToolCall : Type :=
  | MethodNotFound
  | InvalidParams
  | Ran (run : Async ToolResponse).

(** Modelled from the spec: the dispatch of a tool call belongs to the MCP
    SDK, outside [src/]; each tool "validates its input against a declared
    schema before doing any work", and a rejected input "never reaches the
    network or filesystem layer". *)
Definition call_tool (server : McpServer) (w : World) (name : string)
    (args : Json) : ToolCall :=
  match find (fun t => bool_decide (tool_name t = name)) (registered server) with
  | None => MethodNotFound
  | Some t =>
      match tool_schema t w args with
      | None => InvalidParams
      | Some params => Ran (tool_callback t w params)
      end
  end.

(** The calls to the outside world a tool call made. *)
Definition calls_made (c : ToolCall) : list Event :=
  match c with
  | Ran run => trace run
  | MethodNotFound | InvalidParams => []
  end.

(** [!token] on a value that is a string or [undefined]. *)
Definition not_token (token : option string) : bool :=
  match token with
  | None => true
  | Some s => bool_decide (s = "")
  end.

(** ** [src/mcp.ts], version 0.0.2 *)

Module Mcp.

(** [params.files.map(async (file) => ...)]: one promise per file, which
    reads the file and wraps the buffer. *)
Definition filesPromises (w : World) (params_files : list FileParam)
    : list (Async File) :=
  (fun file =>
     buffer ← await (EvReadFile (filePath file)) (fs_readFile w (filePath file));
     mret (new_File buffer (fileName file) (fileType file)))
  <$> params_files.

(** [{ ...file, path: params.files[idx].filePath }] *)
Definition with_path (params_files : list FileParam) (idx : nat)
    (file : Settled File) : Completion (Settled File * string) :=
  match params_files !! idx with
  | Some p => Normal (file, filePath p)
  | None => Throw (TypeError_undefined "filePath")
  end.

(** [files.map(...).filter((file) => file.status === "rejected")] *)
Definition failedFiles (params_files : list FileParam)
    (files : list (Settled File)) : Completion (list (Settled File * string)) :=
  match Array_map (with_path params_files) files with
  | Normal l => Normal (filter (fun file => is_rejected file.1) l)
  | Throw v => Throw v
  end.

(** [files.filter((file) => file.status === "fulfilled").map((file) => file.value)] *)
Definition succesfulFiles (files : list (Settled File)) : list File :=
  omap fulfilled_value files.

(** [`${file.path}: ${JSON.stringify(file.reason)}`] *)
Definition render_failed_file (file : Settled File * string) : string :=
  file.2 +:+ ": " +:+ reason_string file.1.

(** [results.map((result, idx) => ({ error: result.error, file: succesfulFiles[idx] }))
      .filter((result) => result.error)]: a pair stands for the object. *)
Definition failedUploads {I : Type} (results : list UploadResult)
    (inputs : list I) : list (option JsValue * option I) :=
  filter (fun result => is_Some result.1)
    (imap (fun idx result => (error result, inputs !! idx)) results).

(** [results.map((result, idx) => ({ data: result.data, file: succesfulFiles[idx] }))
      .filter((result) => result.data)] *)
Definition successfulUploads {I : Type} (results : list UploadResult)
    (inputs : list I) : list (option JsValue * option I) :=
  filter (fun result => is_Some result.1)
    (imap (fun idx result => (data result, inputs !! idx)) results).

(** [`${upload.file.name}: ${JSON.stringify(upload.data)}`]: reading [name]
    of an [undefined] file throws. *)
Definition render_file_upload (upload : option JsValue * option File)
    : Completion string :=
  match upload.2 with
  | Some file => Normal (name file +:+ ": " +:+ JSON_stringify_nullable upload.1)
  | None => Throw (TypeError_undefined "name")
  end.

(** [uploads.map(render).join(", ")] *)
Definition render_file_uploads (uploads : list (option JsValue * option File))
    : Completion string :=
  match Array_map (fun _ upload => render_file_upload upload) uploads with
  | Normal l => Normal (Array_join ", " l)
  | Throw v => Throw v
  end.

(** [`${upload.url}: ${JSON.stringify(upload.data)}`] *)
Definition render_url_upload (upload : option JsValue * option string) : string :=
  template_string upload.2 +:+ ": " +:+ JSON_stringify_nullable upload.1.

Definition render_url_uploads (uploads : list (option JsValue * option string))
    : string :=
  Array_join ", " (render_url_upload <$> uploads).

(** The template literals of the handlers, with their line feeds and
    indentation. *)
Definition partial_failure_text (title_ok title_failed ok failed : string) : string :=
  LF +:+ blanks 14 +:+ title_ok +:+ ok +:+ LF +:+ LF +:+ LF +:+ LF +:+
  blanks 14 +:+ title_failed +:+ failed +:+ LF +:+ blanks 14.

Definition success_text (title_ok ok : string) : string :=
  LF +:+ blanks 16 +:+ title_ok +:+ ok +:+ LF +:+ blanks 16.

(** The rest of the inner [try] block of [upload-files], once
    [await utapi.uploadFiles(succesfulFiles)] gave [results]. *)
Definition report_file_uploads (results : list UploadResult)
    (succesfulFiles : list File) : Async ToolResponse :=
  let failedU := failedUploads results succesfulFiles in
  let successfulU := successfulUploads results succesfulFiles in
  if 0 <? length failedU then
    s ← lift (render_file_uploads successfulU);
    f ← lift (render_file_uploads failedU);
    throw (new_Error
      (partial_failure_text "Successfully uploaded files: "
         "Failed to upload files: " s f))
  else
    s ← lift (render_file_uploads successfulU);
    mret {| content :=
              text_content (success_text "Successfully uploaded files: " s);
            isError := None |}.

(** The handler of the tool [upload-files]. *)
Definition upload_files (utapi : UTApi) (w : World) (params_files : list FileParam)
    : Async ToolResponse :=
  try_catch
    (files ← Promise_allSettled (filesPromises w params_files);
     failed ← lift (failedFiles params_files files);
     if 0 <? length failed then
       throw (new_Error
         ("Failed to read files given the following paths: " +:+
          Array_join ", " (render_failed_file <$> failed)))
     else
       let ok := succesfulFiles files in
       if length ok =? 0 then
         throw (new_Error "No files could be read to be uploaded")
       else
         try_catch
           (results ← await (EvUploadFiles ok) (uploadFiles w utapi ok);
            report_file_uploads results ok)
           (fun uploadError => throw uploadError))
    (fun error =>
       mret {| content :=
                 text_content ("Files upload failed: " +:+ message_or_unknown error);
               isError := Some true |}).

(** The rest of the [try] block of [upload-files-from-urls], once
    [await utapi.uploadFilesFromUrl(urls)] gave [results]. *)
Definition report_url_uploads (results : list UploadResult) (urls : list string)
    : Async ToolResponse :=
  let failedU := failedUploads results urls in
  let successfulU := successfulUploads results urls in
  if 0 <? length failedU then
    throw (new_Error
      (partial_failure_text "Successfully uploaded files by URL: "
         "Failed to upload files by URL: "
         (render_url_uploads successfulU) (render_url_uploads failedU)))
  else
    mret {| content :=
              text_content (success_text "Successfully uploaded files by URL: "
                              (render_url_uploads successfulU));
            isError := None |}.

(** The handler of the tool [upload-files-from-urls]. *)
Definition upload_files_from_urls (utapi : UTApi) (w : World)
    (params_filesByURL : list string) : Async ToolResponse :=
  try_catch
    (let urls := params_filesByURL in
     results ← await (EvUploadFilesFromUrl urls) (uploadFilesFromUrl w utapi urls);
     report_url_uploads results urls)
    (fun error =>
       mret {| content :=
                 text_content ("Files by URL upload failed: " +:+
                               message_or_unknown error);
               isError := Some true |}).

(** The schema of [upload-files]: [{ files: z.array(z.object({...})) }] *)
Definition upload_files_schema (w : World) : Zod.Schema (list FileParam) :=
  fun args =>
    match args with
    | JObject fields =>
        Zod.z_property "files" (Zod.z_array Zod.z_file_param) fields
    | _ => None
    end.

(** The schema of [upload-files-from-urls]:
    [{ filesByURL: z.array(z.string().url()) }] *)
Definition upload_files_from_urls_schema (w : World) : Zod.Schema (list string) :=
  fun args =>
    match args with
    | JObject fields =>
        Zod.z_property "filesByURL" (Zod.z_array (Zod.z_string_url w)) fields
    | _ => None
    end.

Definition upload_files_tool (utapi : UTApi) : Tool :=
  {| tool_name := "upload-files";
     tool_description :=
       "Upload files to UploadThing. Given a list of file with their paths, names, and types, it will upload the files to UploadThing and return the URLs of the uploaded files.";
     tool_params := list FileParam;
     tool_schema := upload_files_schema;
     tool_callback := upload_files utapi |}.

Definition upload_files_from_urls_tool (utapi : UTApi) : Tool :=
  {| tool_name := "upload-files-from-urls";
     tool_description :=
       "Upload files by URL to UploadThing. Given a list of URLs, it will upload the files by URL to UploadThing and return the URLs of the uploaded files.";
     tool_params := list string;
     tool_schema := upload_files_from_urls_schema;
     tool_callback := upload_files_from_urls utapi |}.

(** [createMCPUploadThing({ token })] *)
Definition createMCPUploadThing (token : option string) : Completion McpServer :=
  if not_token token then
    Throw (new_Error "UploadThing Token is required")
  else
    let mcpServer := new_McpServer "mcp-uploadthing" "0.0.2" in
    let utapi := {| Js.token := default "" token |} in
    let mcpServer := McpServer_tool mcpServer (upload_files_tool utapi) in
    let mcpServer := McpServer_tool mcpServer (upload_files_from_urls_tool utapi) in
    Normal mcpServer.

End Mcp.

(** ** The earlier [mcp.ts], version 0.0.1 *)

Module Mcp001.

(** The handler of the tool [upload-file]. *)
Definition upload_file (utapi : UTApi) (w : World)
    (params : string * string * string) : Async ToolResponse :=
  let '(file, fileName, fileType) := params in
  try_catch
    (buffer ← await (EvReadFile file) (fs_readFile w file);
     let fileObj := new_File buffer fileName fileType in
     try_catch
       (result ← await (EvUploadFile fileObj) (uploadFiles_one w utapi fileObj);
        match error result with
        | Some e =>
            throw (new_Error ("Upload failed: " +:+ JSON_stringify e))
        | None =>
            mret {| content :=
                      text_content ("File uploaded successfully: " +:+
                                    JSON_stringify_nullable (data result));
                    isError := None |}
        end)
       (fun uploadError => throw uploadError))
    (fun error =>
       mret {| content :=
                 text_content ("File upload failed: " +:+ message_or_unknown error);
               isError := Some true |}).

(** The schema of [upload-file]: [{ file, fileName, fileType }], three strings. *)
Definition upload_file_schema (w : World) : Zod.Schema (string * string * string) :=
  fun args =>
    match args with
    | JObject fields =>
        f ← Zod.z_property "file" Zod.z_string fields;
        n ← Zod.z_property "fileName" Zod.z_string fields;
        t ← Zod.z_property "fileType" Zod.z_string fields;
        Some (f, n, t)
    | _ => None
    end.

Definition upload_file_tool (utapi : UTApi) : Tool :=
  {| tool_name := "upload-file";
     tool_description :=
       "Upload file to UploadThing. Given a file path, it will upload the file to UploadThing and return the URL of the uploaded file.";
     tool_params := string * string * string;
     tool_schema := upload_file_schema;
     tool_callback := upload_file utapi |}.

(** [createMCPUploadThing({ token })]: this version returns the server
    together with the client. *)
Definition createMCPUploadThing (token : option string)
    : Completion (McpServer * UTApi) :=
  if not_token token then
    Throw (new_Error "UploadThing Token is required")
  else
    let mcpServer := new_McpServer "mcp-uploadthing" "0.0.1" in
    let utapi := {| Js.token := default "" token |} in
    let mcpServer := McpServer_tool mcpServer (upload_file_tool utapi) in
    Normal (mcpServer, utapi).

End Mcp001.

(** ** [index.ts]: process start-up *)

Module Index.

(** How the process stands once [main()] has settled. *)
Inductive Process : Type :=
  | Serving (server : McpServer)
  | Exited (code : Z).

(** [main()], for the value of [process.env.UPLOADTHING_TOKEN]; it takes
    the server out of the pair [createMCPUploadThing] returns and connects
    it to the transport. *)
Definition main (token : option string) : Completion McpServer :=
  if not_token token then
    Throw (new_Error "UPLOADTHING_TOKEN is required")
  else
    match Mcp001.createMCPUploadThing token with
    | Normal (mcpServer, _) => Normal mcpServer
    | Throw v => Throw v
    end.

(** [main().catch((error) => { ...; process.exit(1); })] *)
Definition start (token : option string) : Process :=
  match main token with
  | Normal server => Serving server
  | Throw _ => Exited 1
  end.

End Index.

(** ** Vocabulary of the statements *)

(** [text.includes(sub)] *)
Definition includes (text sub : string) : bool :=
  match String.index 0 sub text with
  | Some _ => true
  | None => false
  end.

(** A call to the upload service, as opposed to a file read. *)
Definition is_upload_call (ev : Event) : bool :=
  match ev with
  | EvReadFile _ => false
  | EvUploadFile _ | EvUploadFiles _ | EvUploadFilesFromUrl _ => true
  end.

(** How the promise of one file of the batch settles. *)
Definition read_outcome (w : World) (p : FileParam) : Settled File :=
  match fs_readFile w (filePath p) with
  | inl buffer => Fulfilled (new_File buffer (fileName p) (fileType p))
  | inr reason => Rejected reason
  end.

(** The files of a batch whose read fails, in input order. *)
Definition unreadable (w : World) (ps : list FileParam) : list FileParam :=
  filter (fun p => is_rejected (read_outcome w p)) ps.

(** The file objects of the files of a batch that were read, in input order. *)
Definition read_files (w : World) (ps : list FileParam) : list File :=
  omap (fun p => fulfilled_value (read_outcome w p)) ps.

(** The reads a batch starts, in input order. *)
Definition reads (ps : list FileParam) : list Event :=
  (fun p => EvReadFile (filePath p)) <$> ps.

(** The service's contract for one entry: the payload or the error, not
    both and not neither. *)
Definition data_xor_error (r : UploadResult) : bool :=
  xorb (bool_decide (is_Some (data r))) (bool_decide (is_Some (error r))).

(** An entry the service accepted. *)
Definition accepted (r : UploadResult) : bool :=
  bool_decide (is_Some (data r)) && bool_decide (error r = None).

(** The error response of a handler whose [catch] received a message. *)
Definition error_response (prefix msg : string) : ToolResponse :=
  {| content := text_content (prefix +:+ msg); isError := Some true |}.

(** The text of a response that has the single text item the handlers build. *)
Definition response_text (r : ToolResponse) : string :=
  match content r with
  | [item] => text item
  | _ => ""
  end.

(** The inputs the service answered with an error, each with its answer,
    in input order. *)
Definition failed_items {I : Type} (results : list UploadResult) (inputs : list I)
    : list (I * UploadResult) :=
  filter (fun ir => is_Some (error ir.2)) (zip inputs results).

(** The inputs the service answered with a payload, each with its answer,
    in input order. *)
Definition successful_items {I : Type} (results : list UploadResult)
    (inputs : list I) : list (I * UploadResult) :=
  filter (fun ir => is_Some (data ir.2)) (zip inputs results).

(** One line of a report: the identifier of an item and the printed detail. *)
Definition entry (id : string) (detail : option JsValue) : string :=
  id +:+ ": " +:+ JSON_stringify_nullable detail.

(** The lines of a report, joined as the handlers join them. *)
Definition lines {I : Type} (id : I -> string)
    (detail : UploadResult -> option JsValue) (items : list (I * UploadResult))
    : string :=
  Array_join ", " ((fun ir => entry (id ir.1) (detail ir.2)) <$> items).

(** The line of the read-failure message for one unreadable file. *)
Definition read_failure_line (w : World) (p : FileParam) : string :=
  filePath p +:+ ": " +:+ reason_string (read_outcome w p).

(** [sub] occurs somewhere in [text]. *)
Definition occurs (sub text : string) : Prop :=
  exists pre post, text = pre +:+ sub +:+ post.

(** The response to a batch the service answered item by item: the success
    text when no item failed, else the error text with both lists. *)
Definition batch_response (prefix title_ok title_failed : string) {I : Type}
    (id : I -> string) (results : list UploadResult) (inputs : list I)
    : ToolResponse :=
  if 0 <? length (failed_items results inputs) then
    error_response prefix
      (Mcp.partial_failure_text title_ok title_failed
         (lines id data (successful_items results inputs))
         (lines id error (failed_items results inputs)))
  else
    {| content :=
         text_content (Mcp.success_text title_ok
                         (lines id data (successful_items results inputs)));
       isError := None |}.

Definition files_response : list UploadResult -> list File -> ToolResponse :=
  batch_response "Files upload failed: " "Successfully uploaded files: "
    "Failed to upload files: " name.

Definition urls_response : list UploadResult -> list string -> ToolResponse :=
  batch_response "Files by URL upload failed: "
    "Successfully uploaded files by URL: " "Failed to upload files by URL: " id.

(** [succ] and [fail] split [all]: each keeps the order of [all], and
    together they hold every element of [all] once. *)
Definition partitions {A : Type} (succ fail all : list A) : Prop :=
  succ `sublist_of` all /\ fail `sublist_of` all /\ succ ++ fail ≡ₚ all.

(** The call to the service did not go through for every item: it faulted
    as a whole, or it answered some item with an error. *)
Definition upload_failed (answer : list UploadResult + JsValue) : Prop :=
  match answer with
  | inr _ => True
  | inl results => Exists (fun r => is_Some (error r)) results
  end.

(** The single operation of [upload-file] failed: the read failed, or the
    call to the service faulted, or the service answered with an error. *)
Definition upload_file_failed (u : UTApi) (w : World)
    (params : string * string * string) : Prop :=
  let '(file, fileName, fileType) := params in
  match fs_readFile w file with
  | inr _ => True
  | inl buffer =>
      match uploadFiles_one w u (new_File buffer fileName fileType) with
      | inr _ => True
      | inl result => is_Some (error result)
      end
  end.

(** The file [q] of a batch was handed to the upload service during [run]. *)
Definition uploaded_in (run : Async ToolResponse) (q : FileParam) : Prop :=
  exists files file,
    EvUploadFiles files ∈ trace run /\ file ∈ files /\ name file = fileName q.

(** The world in which the service answers every client as it answers [u]. *)
Definition answering_as (u : UTApi) (w : World) : World :=
  {| fs_readFile := fs_readFile w;
     uploadFiles_one := fun _ => uploadFiles_one w u;
     uploadFiles := fun _ => uploadFiles w u;
     uploadFilesFromUrl := fun _ => uploadFilesFromUrl w u;
     is_url := is_url w |}.

(** The token is absent or empty. *)
Definition no_token (token : option string) : Prop :=
  token = None \/ token = Some "".

(** The success text of a batch, spelled out as it stands in [mcp.ts]
    (lines 126-133 and 209-215): a line feed, sixteen blanks, the title, the
    lines of the list joined by a comma and a blank, a line feed and sixteen
    blanks. *)
Definition written_success (title : string) (ok : list string) : string :=
  String (ascii_of_nat 10)
    ("                " +:+ title +:+ String.concat ", " ok +:+
     String (ascii_of_nat 10) "                ").

(** The error text of a batch in which some item was refused, spelled out as
    it stands in [mcp.ts] (lines 104-118 and 189-201, behind the prefix of
    the [catch]): both lists, the accepted items first, four line feeds
    between them, fourteen blanks of indentation. *)
Definition written_failure (prefix title_ok title_failed : string)
    (ok failed : list string) : string :=
  prefix +:+
  String (ascii_of_nat 10)
    ("              " +:+ title_ok +:+ String.concat ", " ok +:+
     String (ascii_of_nat 10)
       (String (ascii_of_nat 10)
          (String (ascii_of_nat 10)
             (String (ascii_of_nat 10)
                ("              " +:+ title_failed +:+
                 String.concat ", " failed +:+
                 String (ascii_of_nat 10) "              "))))).

(** The line of a report for one item and the answer it got. *)
Definition item_line {I : Type} (id : I -> string)
    (detail : UploadResult -> option JsValue) (ir : I * UploadResult) : string :=
  id ir.1 +:+ ": " +:+ JSON_stringify_nullable (detail ir.2).

(** The whole response to a batch of which [succ] were accepted and [fail]
    refused, spelled out. *)
Definition written_report (prefix title_ok title_failed : string) {I : Type}
    (id : I -> string) (succ fail : list (I * UploadResult)) : ToolResponse :=
  match fail with
  | [] =>
      {| content :=
           [ {| content_type := "text";
                text := written_success title_ok (item_line id data <$> succ) |} ];
         isError := None |}
  | _ :: _ =>
      {| content :=
           [ {| content_type := "text";
                text := written_failure prefix title_ok title_failed
                          (item_line id data <$> succ)
                          (item_line id error <$> fail) |} ];
         isError := Some true |}
  end.

(** A MIME type a [File] keeps as it is given: characters from U+0020 to
    U+007E only, none of them a capital letter. *)
Definition kept_by_File (t : string) : bool :=
  string_forallb
    (fun c => type_char_allowed c
              && negb ((65 <=? nat_of_ascii c) && (nat_of_ascii c <=? 90)))
    t.

(** The envelope every handler builds: one text item, and an [isError] flag
    that is left out or [true]; the text of an error starts with the prefix
    of the handler's [catch]. *)
Definition well_formed_answer (prefix : string) (r : ToolResponse) : Prop :=
  (exists t, content r = [ {| content_type := "text"; text := t |} ])
  /\ (isError r = None
      \/ (isError r = Some true /\ String.prefix prefix (response_text r) = true)).

(** The call of [upload-files] that stands for a call of [upload-file]: the
    same file, sent as a batch of one. *)
Definition as_batch_call (ev : Event) : Event :=
  match ev with
  | EvUploadFile file => EvUploadFiles [file]
  | _ => ev
  end.

(** The arguments of [upload-files] a client sends for a list of files. *)
Definition encode_file_param (p : FileParam) : Json :=
  JObject {[ "filePath" := JString (filePath p);
             "fileName" := JString (fileName p);
             "fileType" := JString (fileType p) ]}.

Definition encode_files_args (ps : list FileParam) : Json :=
  JObject {[ "files" := JArray (encode_file_param <$> ps) ]}.

(** ** A small world for the examples *)

Module Demo.

Definition enoent (path : string) : JsValue :=
  {| instanceof_Error := true;
     message := "ENOENT: no such file or directory, open '" +:+ path +:+ "'";
     json := "{errno:-2,code:ENOENT,syscall:open}" |}.

Definition payload (key : string) : JsValue :=
  {| instanceof_Error := false; message := ""; json := "{key:" +:+ key +:+ "}" |}.

Definition too_large : JsValue :=
  {| instanceof_Error := false; message := "File too large"; json := "{code:TOO_LARGE}" |}.

(** The service refuses what is called [big.bin] and takes the rest. *)
Definition answer (id : string) : UploadResult :=
  if bool_decide (id = "big.bin")
  then {| data := None; error := Some too_large |}
  else {| data := Some (payload id); error := None |}.

(** Paths under [/tmp/missing] do not exist; every other file is empty. *)
Definition world : World :=
  {| fs_readFile := fun path =>
       if String.prefix "/tmp/missing" path then inr (enoent path) else inl [];
     uploadFiles_one := fun _ file => inl (answer (name file));
     uploadFiles := fun _ files => inl ((fun file => answer (name file)) <$> files);
     uploadFilesFromUrl := fun _ urls => inl (answer <$> urls);
     is_url := fun s => String.prefix "https://" s |}.

Definition client : UTApi := {| token := "sk_live_demo" |}.

Definition a_txt : FileParam :=
  {| filePath := "/tmp/a.txt"; fileName := "a.txt"; fileType := "text/plain" |}.

Definition b_png : FileParam :=
  {| filePath := "/tmp/b.png"; fileName := "b.png"; fileType := "image/png" |}.

Definition big_bin : FileParam :=
  {| filePath := "/tmp/big.bin"; fileName := "big.bin";
     fileType := "application/octet-stream" |}.

Definition c_jpg : FileParam :=
  {| filePath := "/tmp/c.jpg"; fileName := "c.jpg"; fileType := "Image/JPEG" |}.

Definition missing_txt : FileParam :=
  {| filePath := "/tmp/missing.txt"; fileName := "report.txt";
     fileType := "text/plain" |}.

(** The same world with the service out of reach: every call to it rejects. *)
Definition fetch_failed : JsValue :=
  {| instanceof_Error := true; message := "fetch failed"; json := "{}" |}.

Definition offline : World :=
  {| fs_readFile := fs_readFile world;
     uploadFiles_one := fun _ _ => inr fetch_failed;
     uploadFiles := fun _ _ => inr fetch_failed;
     uploadFilesFromUrl := fun _ _ => inr fetch_failed;
     is_url := is_url world |}.

(** The same world with a service that answers a batch with no entry. *)
Definition mute : World :=
  {| fs_readFile := fs_readFile world;
     uploadFiles_one := uploadFiles_one world;
     uploadFiles := fun _ _ => inl [];
     uploadFilesFromUrl := fun _ _ => inl [];
     is_url := is_url world |}.

(** The same world with a service that answers one entry too many. *)
Definition chatty : World :=
  {| fs_readFile := fs_readFile world;
     uploadFiles_one := uploadFiles_one world;
     uploadFiles := fun _ files =>
       inl (((fun file => answer (name file)) <$> files) ++ [answer "big.bin"]);
     uploadFilesFromUrl := fun _ urls =>
       inl ((answer <$> urls) ++ [answer "big.bin"]);
     is_url := is_url world |}.

End Demo.

(** * Properties *)

(** ** The monad and the array helpers *)

Lemma bind_normal {A B : Type} (tr : list Event) (a : A) (k : A -> Async B) :
  ((tr, Normal a) ≫= k) = (tr ++ (k a).1, (k a).2).
Proof. unfold mbind, Async_bind, bind. destruct (k a); reflexivity. Qed.

Lemma bind_throw {A B : Type} (tr : list Event) (v : JsValue) (k : A -> Async B) :
  ((tr, @Throw A v) ≫= k) = (tr, Throw v).
Proof. reflexivity. Qed.

Lemma try_catch_normal {A : Type} (tr : list Event) (a : A) h :
  try_catch (tr, Normal a) h = (tr, Normal a).
Proof. reflexivity. Qed.

Lemma try_catch_throw {A : Type} (tr : list Event) (v : JsValue)
    (h : JsValue -> Async A) :
  try_catch (tr, Throw v) h = (tr ++ (h v).1, (h v).2).
Proof. unfold try_catch. destruct (h v); reflexivity. Qed.

Lemma try_catch_rethrow {A : Type} (m : Async A) :
  try_catch m (fun e => throw e) = m.
Proof.
  destruct m as [tr [a | v]]; unfold try_catch, throw; simpl;
    [reflexivity | by rewrite app_nil_r].
Qed.

(** A map whose callback never throws is the indexed map. *)
Lemma Array_map_from_total {A B : Type} (f : nat -> A -> Completion B)
    (g : nat -> A -> B) (arr : list A) (i : nat) :
  (forall k x, arr !! k = Some x -> f (i + k) x = Normal (g (i + k) x)) ->
  Array_map_from f i arr = Normal (imap (fun k => g (i + k)) arr).
Proof.
  revert i. induction arr as [| x rest IH]; intros i Hf; [reflexivity |].
  simpl. pose proof (Hf 0 x eq_refl) as H0. rewrite Nat.add_0_r in H0.
  rewrite H0, (IH (S i)).
  - rewrite Nat.add_0_r. do 2 f_equal. apply imap_ext. intros k y _. simpl.
    f_equal. lia.
  - intros k y Hk. replace (S i + k) with (i + S k) by lia. by apply Hf.
Qed.

Lemma Array_map_total {A B : Type} (f : nat -> A -> Completion B)
    (g : nat -> A -> B) (arr : list A) :
  (forall k x, arr !! k = Some x -> f k x = Normal (g k x)) ->
  Array_map f arr = Normal (imap g arr).
Proof.
  intros Hf. unfold Array_map. by rewrite (Array_map_from_total f g arr 0).
Qed.

Lemma Array_map_from_fmap {A B C : Type} (h : A -> B) (f : B -> Completion C)
    (g : A -> C) (l : list A) (i : nat) :
  (forall x, f (h x) = Normal (g x)) ->
  Array_map_from (fun _ => f) i (h <$> l) = Normal (g <$> l).
Proof.
  intros Hf. revert i. induction l as [| x l IH]; intros i; [reflexivity |].
  rewrite !fmap_cons. cbn [Array_map_from]. by rewrite Hf, IH.
Qed.

Lemma filter_fmap_comm {A B : Type} (f : A -> B) (P : B -> Prop)
    `{!forall y, Decision (P y)} (l : list A) :
  filter P (f <$> l) = f <$> filter (fun x => P (f x)) l.
Proof.
  induction l as [| x l IH]; [reflexivity |].
  rewrite fmap_cons, !filter_cons.
  destruct (decide (P (f x))); rewrite IH; reflexivity.
Qed.

(** ** Strings: occurrence and [includes] *)

Lemma append_cons (c : ascii) (a b : string) :
  String c a +:+ b = String c (a +:+ b).
Proof. reflexivity. Qed.

Lemma append_nil_l (b : string) : "" +:+ b = b.
Proof. reflexivity. Qed.

Lemma append_assoc (a b c : string) : (a +:+ b) +:+ c = a +:+ b +:+ c.
Proof.
  induction a as [| x a IH]; [reflexivity |]. by rewrite !append_cons, IH.
Qed.

Lemma append_nil_r (a : string) : a +:+ "" = a.
Proof.
  induction a as [| x a IH]; [reflexivity |]. by rewrite append_cons, IH.
Qed.

Lemma occurs_refl (s : string) : occurs s s.
Proof. exists "", "". by rewrite append_nil_l, append_nil_r. Qed.

Lemma occurs_app_l (sub a t : string) : occurs sub t -> occurs sub (a +:+ t).
Proof.
  intros (pre & post & ->). exists (a +:+ pre), post. by rewrite append_assoc.
Qed.

Lemma occurs_app_r (sub t b : string) : occurs sub t -> occurs sub (t +:+ b).
Proof.
  intros (pre & post & ->). exists pre, (post +:+ b). by rewrite !append_assoc.
Qed.

Lemma occurs_join (sep x : string) (l : list string) :
  x ∈ l -> occurs x (Array_join sep l).
Proof.
  unfold Array_join. induction l as [| y l IH]; intros Hx.
  - by apply elem_of_nil in Hx.
  - apply elem_of_cons in Hx as [-> | Hx].
    + destruct l; [apply occurs_refl | apply occurs_app_r, occurs_refl].
    + destruct l as [| z l]; [by apply elem_of_nil in Hx |].
      change (occurs x (y +:+ sep +:+ String.concat sep (z :: l))).
      by apply occurs_app_l, occurs_app_l, IH.
Qed.

Lemma prefix_app (sub post : string) : String.prefix sub (sub +:+ post) = true.
Proof.
  induction sub as [| c sub IH].
  - by destruct post.
  - rewrite append_cons. simpl. destruct (ascii_dec c c); [exact IH | done].
Qed.

Lemma occurs_includes (sub text : string) :
  occurs sub text -> includes text sub = true.
Proof.
  intros (pre & post & ->). unfold includes.
  induction pre as [| c pre IH].
  - rewrite append_nil_l. pose proof (prefix_app sub post) as Hp.
    destruct (sub +:+ post) eqn:E.
    + destruct sub; [reflexivity | discriminate].
    + cbn [String.index]. by rewrite Hp.
  - rewrite append_cons. cbn [String.index].
    destruct (String.prefix sub _); [reflexivity |].
    destruct (String.index 0 sub (pre +:+ sub +:+ post));
      [reflexivity | discriminate].
Qed.

(** The two texts of a batch report keep what their lists print. *)
Lemma occurs_partial_failure_failed (sub t1 t2 ok failed : string) :
  occurs sub failed -> occurs sub (Mcp.partial_failure_text t1 t2 ok failed).
Proof.
  intros H. unfold Mcp.partial_failure_text.
  do 10 apply occurs_app_l. by apply occurs_app_r.
Qed.

(** ** The reading stage of [upload-files] *)

Lemma allSettled_filesPromises (w : World) (ps : list FileParam) :
  Promise_allSettled (Mcp.filesPromises w ps)
  = (reads ps, Normal (read_outcome w <$> ps)).
Proof.
  induction ps as [| p ps IH]; [reflexivity |].
  unfold Mcp.filesPromises in *. rewrite fmap_cons.
  change (Promise_allSettled (?p :: ?rest))
    with (bind (settle p) (fun s =>
          bind (Promise_allSettled rest) (fun ss => ret (s :: ss)))).
  rewrite IH. unfold reads. rewrite !fmap_cons. unfold read_outcome at 2.
  destruct (fs_readFile w (filePath p));
    cbn [bind settle await ret mbind Async_bind mret Async_ret fst snd app];
    rewrite ?app_nil_r; reflexivity.
Qed.

Lemma failedFiles_read (w : World) (ps : list FileParam) :
  Mcp.failedFiles ps (read_outcome w <$> ps)
  = Normal ((fun p => (read_outcome w p, filePath p)) <$> unreadable w ps).
Proof.
  unfold Mcp.failedFiles.
  rewrite (Array_map_total _ (fun k s => (s, from_option filePath "" (ps !! k)))).
  - f_equal. rewrite imap_fmap.
    rewrite (imap_ext _ (const (fun p => (read_outcome w p, filePath p)))).
    + rewrite imap_const.
      by rewrite (filter_fmap_comm _ (fun file => is_rejected file.1)).
    + intros i p Hp. simpl. by rewrite Hp.
  - intros k s Hk. unfold Mcp.with_path.
    rewrite list_lookup_fmap in Hk.
    destruct (ps !! k); [reflexivity | discriminate].
Qed.

Lemma succesfulFiles_read (w : World) (ps : list FileParam) :
  Mcp.succesfulFiles (read_outcome w <$> ps) = read_files w ps.
Proof.
  unfold Mcp.succesfulFiles, read_files.
  induction ps as [| p ps IH]; [reflexivity |].
  rewrite fmap_cons. cbn [omap list_omap]. by rewrite IH.
Qed.

(** When every file is read, the file objects are the inputs, one for one. *)
Lemma read_files_all (w : World) (ps : list FileParam) :
  unreadable w ps = [] ->
  length (read_files w ps) = length ps
  /\ name <$> read_files w ps = fileName <$> ps.
Proof.
  unfold unreadable, read_files.
  induction ps as [| p ps IH]; [done |].
  rewrite filter_cons. cbn [omap list_omap].
  pose proof (eq_refl (read_outcome w p)) as Hro. unfold read_outcome at 2 in Hro.
  destruct (fs_readFile w (filePath p)); rewrite Hro;
    cbn [is_rejected fulfilled_value decide_rel]; [| discriminate].
  intros H. destruct (IH H) as [Hl Hn].
  rewrite !fmap_cons, Hn. cbn [length]. by rewrite Hl.
Qed.

Lemma unreadable_nil_iff (w : World) (ps : list FileParam) :
  unreadable w ps = []
  <-> forall p, p ∈ ps -> exists buffer, fs_readFile w (filePath p) = inl buffer.
Proof.
  unfold unreadable. split.
  - intros H p Hp.
    pose proof (filter_nil_not_elem_of
                  (fun p => is_rejected (read_outcome w p)) ps p H) as Hn.
    unfold read_outcome in Hn.
    destruct (fs_readFile w (filePath p)) as [b | e]; [by exists b |].
    exfalso. by apply Hn.
  - intros H. induction ps as [| p ps IH]; [done |].
    destruct (H p) as [b Hb]; [by left |].
    rewrite filter_cons_False by (unfold read_outcome; rewrite Hb; simpl; tauto).
    apply IH. intros q Hq. apply H. by right.
Qed.

Lemma unreadable_elem (w : World) (ps : list FileParam) (p : FileParam)
    (reason : JsValue) :
  p ∈ ps -> fs_readFile w (filePath p) = inr reason -> p ∈ unreadable w ps.
Proof.
  intros Hp Hr. unfold unreadable. apply list_elem_of_filter. split; [| done].
  unfold read_outcome. by rewrite Hr.
Qed.

(** The handler up to the call to the service. *)
Lemma upload_files_read_stage (u : UTApi) (w : World) (ps : list FileParam) :
  Mcp.upload_files u w ps
  = try_catch
      (if 0 <? length (unreadable w ps) then
         (reads ps,
          Throw (new_Error
            ("Failed to read files given the following paths: " +:+
             Array_join ", " (read_failure_line w <$> unreadable w ps))))
       else if length (read_files w ps) =? 0 then
         (reads ps, Throw (new_Error "No files could be read to be uploaded"))
       else
         (reads ps, Normal tt) ≫= fun _ =>
           await (EvUploadFiles (read_files w ps))
                 (uploadFiles w u (read_files w ps)) ≫= fun results =>
           Mcp.report_file_uploads results (read_files w ps))
      (fun error =>
         mret (error_response "Files upload failed: " (message_or_unknown error))).
Proof.
  unfold Mcp.upload_files. f_equal.
  rewrite allSettled_filesPromises, bind_normal, failedFiles_read.
  unfold lift. rewrite bind_normal, length_fmap, succesfulFiles_read.
  destruct (0 <? length (unreadable w ps)).
  - cbn [throw fst snd]. rewrite app_nil_r. do 3 f_equal.
    rewrite <- list_fmap_compose. reflexivity.
  - cbn [fst snd app]. destruct (length (read_files w ps) =? 0).
    + cbn [throw fst snd]. by rewrite app_nil_r.
    + rewrite try_catch_rethrow, bind_normal. reflexivity.
Qed.

(** A read failure ends the call before the service is reached. *)
Lemma upload_files_read_abort (u : UTApi) (w : World) (ps : list FileParam) :
  unreadable w ps <> [] ->
  Mcp.upload_files u w ps
  = (reads ps,
     Normal (error_response "Files upload failed: "
       ("Failed to read files given the following paths: " +:+
        Array_join ", " (read_failure_line w <$> unreadable w ps)))).
Proof.
  intros Hne. rewrite upload_files_read_stage.
  destruct (unreadable w ps) as [| q qs] eqn:E; [done |].
  cbn [length Nat.ltb Nat.leb]. rewrite try_catch_throw.
  cbn [mret Async_ret ret fst snd]. by rewrite app_nil_r.
Qed.

Lemma reads_not_upload (ps : list FileParam) :
  Forall (fun ev => is_upload_call ev = false) (reads ps).
Proof. unfold reads. apply Forall_fmap, Forall_forall. done. Qed.

(** ** The lists built from the answer of the service *)

Lemma imap_lookup_zip {I : Type} (g : UploadResult -> option JsValue)
    (results : list UploadResult) (inputs : list I) :
  length results <= length inputs ->
  imap (fun idx result => (g result, inputs !! idx)) results
  = (fun ir => (g ir.2, Some ir.1)) <$> zip inputs results.
Proof.
  revert inputs. induction results as [| r results IH]; intros inputs Hlen.
  - by destruct inputs.
  - destruct inputs as [| i inputs]; simpl in Hlen; [lia |].
    simpl. f_equal. rewrite <- IH by lia. by apply imap_ext.
Qed.

Lemma failedUploads_zip {I : Type} (results : list UploadResult) (inputs : list I) :
  length results <= length inputs ->
  Mcp.failedUploads results inputs
  = (fun ir => (error ir.2, Some ir.1)) <$> failed_items results inputs.
Proof.
  intros Hlen. unfold Mcp.failedUploads, failed_items.
  rewrite (imap_lookup_zip error) by done.
  by rewrite (filter_fmap_comm _ (fun result => is_Some result.1)).
Qed.

Lemma successfulUploads_zip {I : Type} (results : list UploadResult)
    (inputs : list I) :
  length results <= length inputs ->
  Mcp.successfulUploads results inputs
  = (fun ir => (data ir.2, Some ir.1)) <$> successful_items results inputs.
Proof.
  intros Hlen. unfold Mcp.successfulUploads, successful_items.
  rewrite (imap_lookup_zip data) by done.
  by rewrite (filter_fmap_comm _ (fun result => is_Some result.1)).
Qed.

(** No entry is filtered into the failures exactly when no answer carries an
    error, whatever the inputs are. *)
Lemma filter_error_nil {I : Type} (h : nat -> option I)
    (results : list UploadResult) :
  filter (fun result : option JsValue * option I => is_Some result.1)
    (imap (fun idx result => (error result, h idx)) results) = []
  <-> Forall (fun r => error r = None) results.
Proof.
  revert h. induction results as [| r results IH]; intros h.
  - split; [constructor | done].
  - rewrite imap_cons, filter_cons. cbn [fst].
    change (imap (_ ∘ S) results)
      with (imap (fun idx result => (error result, (h ∘ S) idx)) results).
    destruct (decide (is_Some (error r))) as [Hs | Hn].
    + split; [done |]. intros HF. apply Forall_cons in HF as [Hr _].
      rewrite Hr in Hs. by destruct Hs.
    + rewrite IH, Forall_cons. split; [| tauto].
      intros HF. split; [| done].
      destruct (error r); [| done]. exfalso. by apply Hn.
Qed.

Lemma failedUploads_nil_iff {I : Type} (results : list UploadResult)
    (inputs : list I) :
  Mcp.failedUploads results inputs = []
  <-> Forall (fun r => error r = None) results.
Proof. apply (filter_error_nil (fun idx => inputs !! idx)). Qed.

Lemma failedUploads_length_iff {I : Type} (results : list UploadResult)
    (inputs : list I) :
  (0 <? length (Mcp.failedUploads results inputs)) = true
  <-> Exists (fun r => is_Some (error r)) results.
Proof.
  rewrite Nat.ltb_lt. split.
  - intros Hlt.
    destruct (decide (Exists (fun r => is_Some (error r)) results)) as [| Hn];
      [done |].
    apply not_Exists_Forall in Hn; [| intros r; apply _].
    assert (Forall (fun r => error r = None) results) as HN.
    { eapply Forall_impl; [exact Hn |]. intros r Hr. simpl in Hr.
      destruct (error r); [| done]. exfalso. by apply Hr. }
    apply failedUploads_nil_iff with (inputs := inputs) in HN.
    rewrite HN in Hlt. simpl in Hlt. lia.
  - intros HE. destruct (Mcp.failedUploads results inputs) eqn:E; [| simpl; lia].
    apply failedUploads_nil_iff in E. exfalso.
    apply Exists_exists in HE as (r & Hr & Hs).
    rewrite Forall_forall in E. rewrite (E r Hr) in Hs. by destruct Hs.
Qed.

Lemma render_file_uploads_zip (g : UploadResult -> option JsValue)
    (items : list (File * UploadResult)) :
  Mcp.render_file_uploads ((fun ir => (g ir.2, Some ir.1)) <$> items)
  = Normal (lines name g items).
Proof.
  unfold Mcp.render_file_uploads, Array_map.
  by rewrite (Array_map_from_fmap _ _ (fun ir => entry (name ir.1) (g ir.2))).
Qed.

Lemma render_url_uploads_zip (g : UploadResult -> option JsValue)
    (items : list (string * UploadResult)) :
  Mcp.render_url_uploads ((fun ir => (g ir.2, Some ir.1)) <$> items)
  = lines id g items.
Proof.
  unfold Mcp.render_url_uploads, lines. by rewrite <- list_fmap_compose.
Qed.

(** ** The reporting stage *)

Lemma report_file_uploads_trace (results : list UploadResult) (files : list File) :
  (Mcp.report_file_uploads results files).1 = [].
Proof.
  unfold Mcp.report_file_uploads, lift.
  destruct (0 <? _);
    destruct (Mcp.render_file_uploads (Mcp.successfulUploads results files));
    try reflexivity.
  rewrite bind_normal.
  destruct (Mcp.render_file_uploads (Mcp.failedUploads results files)); reflexivity.
Qed.

Lemma report_file_uploads_settles (results : list UploadResult) (files : list File) :
  length results <= length files ->
  try_catch (Mcp.report_file_uploads results files)
    (fun error =>
       mret (error_response "Files upload failed: " (message_or_unknown error)))
  = ([], Normal (files_response results files)).
Proof.
  intros Hlen. unfold Mcp.report_file_uploads, files_response, batch_response.
  rewrite failedUploads_zip, successfulUploads_zip, length_fmap by done.
  rewrite !render_file_uploads_zip.
  by destruct (0 <? length (failed_items results files)).
Qed.

Lemma report_url_uploads_settles (results : list UploadResult) (urls : list string) :
  length results <= length urls ->
  try_catch (Mcp.report_url_uploads results urls)
    (fun error =>
       mret (error_response "Files by URL upload failed: "
               (message_or_unknown error)))
  = ([], Normal (urls_response results urls)).
Proof.
  intros Hlen. unfold Mcp.report_url_uploads, urls_response, batch_response.
  rewrite failedUploads_zip, successfulUploads_zip, length_fmap by done.
  rewrite !render_url_uploads_zip.
  by destruct (0 <? length (failed_items results urls)).
Qed.

(** [try { await call; rest } catch { ... }] for a [rest] that makes no call. *)
Lemma try_await {A : Type} (ev : Event) (answer : A + JsValue)
    (rest : A -> Async ToolResponse) (h : JsValue -> Async ToolResponse)
    (tr : list Event) :
  (forall a, (rest a).1 = []) -> (forall e, (h e).1 = []) ->
  try_catch ((tr, Normal tt) ≫= fun _ => await ev answer ≫= rest) h
  = (tr ++ [ev],
     match answer with
     | inl a => (try_catch (rest a) h).2
     | inr e => (h e).2
     end).
Proof.
  intros Hrest Hh. rewrite bind_normal. unfold await.
  destruct answer as [a | e].
  - rewrite bind_normal. cbn [fst snd]. specialize (Hrest a).
    destruct (rest a) as [tr' [r | v]]; cbn [fst snd] in *; subst tr'.
    + by rewrite try_catch_normal, app_nil_r.
    + rewrite !try_catch_throw. cbn [fst snd]. by rewrite Hh, !app_nil_r.
  - rewrite bind_throw. cbn [fst snd]. rewrite try_catch_throw.
    by rewrite Hh, app_nil_r.
Qed.

Lemma try_catch_settles {A : Type} (m : Async A) (h : JsValue -> Async A) :
  (forall e, exists r, (h e).2 = Normal r) ->
  exists r, (try_catch m h).2 = Normal r.
Proof.
  intros Hh. destruct m as [tr [a | v]].
  - by exists a.
  - rewrite try_catch_throw. apply Hh.
Qed.

(** ** The handlers, stage by stage *)

Lemma read_files_nonempty (w : World) (ps : list FileParam) :
  unreadable w ps = [] -> ps <> [] -> (length (read_files w ps) =? 0) = false.
Proof.
  intros Hr Hne. destruct (read_files_all w ps Hr) as [Hl _].
  rewrite Hl. destruct ps; [done | reflexivity].
Qed.

(** Every file was read and there is at least one: the service is called
    once, with all of them. *)
Lemma upload_files_upload_stage (u : UTApi) (w : World) (ps : list FileParam) :
  unreadable w ps = [] -> ps <> [] ->
  Mcp.upload_files u w ps
  = (reads ps ++ [EvUploadFiles (read_files w ps)],
     match uploadFiles w u (read_files w ps) with
     | inl results =>
         (try_catch (Mcp.report_file_uploads results (read_files w ps))
            (fun error =>
               mret (error_response "Files upload failed: "
                       (message_or_unknown error)))).2
     | inr e =>
         Normal (error_response "Files upload failed: " (message_or_unknown e))
     end).
Proof.
  intros Hr Hne. rewrite upload_files_read_stage, Hr.
  cbn [length Nat.ltb Nat.leb]. rewrite read_files_nonempty by done.
  rewrite try_await; [reflexivity | |].
  - intros results. apply report_file_uploads_trace.
  - reflexivity.
Qed.

Lemma upload_files_answered (u : UTApi) (w : World) (ps : list FileParam)
    (results : list UploadResult) :
  unreadable w ps = [] -> ps <> [] ->
  uploadFiles w u (read_files w ps) = inl results ->
  length results <= length ps ->
  Mcp.upload_files u w ps
  = (reads ps ++ [EvUploadFiles (read_files w ps)],
     Normal (files_response results (read_files w ps))).
Proof.
  intros Hr Hne Hans Hlen. rewrite upload_files_upload_stage, Hans by done.
  rewrite report_file_uploads_settles; [reflexivity |].
  destruct (read_files_all w ps Hr) as [Hl _]. lia.
Qed.

Lemma upload_files_fault (u : UTApi) (w : World) (ps : list FileParam)
    (e : JsValue) :
  unreadable w ps = [] -> ps <> [] ->
  uploadFiles w u (read_files w ps) = inr e ->
  Mcp.upload_files u w ps
  = (reads ps ++ [EvUploadFiles (read_files w ps)],
     Normal (error_response "Files upload failed: " (message_or_unknown e))).
Proof.
  intros Hr Hne Hans. by rewrite upload_files_upload_stage, Hans.
Qed.

Lemma upload_files_from_urls_stage (u : UTApi) (w : World) (urls : list string) :
  Mcp.upload_files_from_urls u w urls
  = ([EvUploadFilesFromUrl urls],
     match uploadFilesFromUrl w u urls with
     | inl results =>
         (try_catch (Mcp.report_url_uploads results urls)
            (fun error =>
               mret (error_response "Files by URL upload failed: "
                       (message_or_unknown error)))).2
     | inr e =>
         Normal (error_response "Files by URL upload failed: "
                   (message_or_unknown e))
     end).
Proof.
  unfold Mcp.upload_files_from_urls.
  pose proof (try_await (EvUploadFilesFromUrl urls) (uploadFilesFromUrl w u urls)
                (fun results => Mcp.report_url_uploads results urls)
                (fun error =>
                   mret (error_response "Files by URL upload failed: "
                           (message_or_unknown error))) []) as H.
  rewrite bind_normal in H. cbn [fst snd app] in H.
  rewrite <- surjective_pairing in H. apply H.
  - intros results. unfold Mcp.report_url_uploads. by destruct (0 <? _).
  - reflexivity.
Qed.

(** What [upload-files-from-urls] answers to a batch the service answered,
    in terms of the lists the handler built. *)
Lemma upload_files_from_urls_reported (u : UTApi) (w : World)
    (urls : list string) (results : list UploadResult) :
  uploadFilesFromUrl w u urls = inl results ->
  Mcp.upload_files_from_urls u w urls
  = ([EvUploadFilesFromUrl urls],
     Normal
       (if 0 <? length (Mcp.failedUploads results urls) then
          error_response "Files by URL upload failed: "
            (Mcp.partial_failure_text "Successfully uploaded files by URL: "
               "Failed to upload files by URL: "
               (Mcp.render_url_uploads (Mcp.successfulUploads results urls))
               (Mcp.render_url_uploads (Mcp.failedUploads results urls)))
        else
          {| content :=
               text_content
                 (Mcp.success_text "Successfully uploaded files by URL: "
                    (Mcp.render_url_uploads (Mcp.successfulUploads results urls)));
             isError := None |})).
Proof.
  intros Hans. rewrite upload_files_from_urls_stage, Hans.
  unfold Mcp.report_url_uploads. by destruct (0 <? _).
Qed.

Lemma upload_files_from_urls_answered (u : UTApi) (w : World)
    (urls : list string) (results : list UploadResult) :
  uploadFilesFromUrl w u urls = inl results ->
  length results <= length urls ->
  Mcp.upload_files_from_urls u w urls
  = ([EvUploadFilesFromUrl urls], Normal (urls_response results urls)).
Proof.
  intros Hans Hlen. rewrite upload_files_from_urls_stage, Hans.
  by rewrite report_url_uploads_settles.
Qed.

(** The handlers never end abruptly: their outer [catch] answers. *)
Lemma upload_files_settles (u : UTApi) (w : World) (ps : list FileParam) :
  exists r, outcome (Mcp.upload_files u w ps) = Normal r.
Proof. apply try_catch_settles. intros e. by eexists. Qed.

Lemma upload_files_from_urls_settles (u : UTApi) (w : World) (urls : list string) :
  exists r, outcome (Mcp.upload_files_from_urls u w urls) = Normal r.
Proof. apply try_catch_settles. intros e. by eexists. Qed.

Lemma upload_file_settles (u : UTApi) (w : World) (params : string * string * string) :
  exists r, outcome (Mcp001.upload_file u w params) = Normal r.
Proof.
  destruct params as [[file fileName] fileType].
  apply try_catch_settles. intros e. by eexists.
Qed.

Lemma no_upload_call_not_uploaded (run : Async ToolResponse) (q : FileParam) :
  Forall (fun ev => is_upload_call ev = false) (trace run) -> ~ uploaded_in run q.
Proof.
  intros HF (files & file & Hev & _). rewrite Forall_forall in HF.
  by specialize (HF _ Hev).
Qed.

Lemma unreadable_single (w : World) (before after : list FileParam)
    (p : FileParam) (reason : JsValue) :
  unreadable w before = [] -> unreadable w after = [] ->
  fs_readFile w (filePath p) = inr reason ->
  unreadable w (before ++ p :: after) = [p].
Proof.
  intros Hb Ha Hr. unfold unreadable in *.
  rewrite filter_app, Hb, filter_cons_True, Ha; [done |].
  unfold read_outcome. by rewrite Hr.
Qed.

(** * The claims *)

(** C7: for an empty [files] array, [upload-files] returns a well-formed
    response, an envelope with one text item and the [isError] flag, and
    does not end with an uncaught fault; the empty array passes the schema
    of the tool, so the call does reach the handler. *)
Theorem upload_files_empty_batch_answers (u : UTApi) (w : World) :
  Mcp.upload_files_schema w (JObject {[ "files" := JArray [] ]}) = Some []
  /\ Mcp.upload_files u w []
     = ([],
        Normal {| content :=
                    [ {| content_type := "text";
                         text := "Files upload failed: No files could be read to be uploaded" |} ];
                  isError := Some true |}).
Proof. split; reflexivity. Qed.

(** C5: evaluation of the code at the failing input.  The schema of
    [upload-files-from-urls] accepts an empty array of URLs, and the handler
    then does call the upload service, with the empty batch; [upload-files]
    with an empty list of files stops before it. *)
Theorem upload_files_from_urls_empty_reaches_service (u : UTApi) (w : World) :
  Mcp.upload_files_from_urls_schema w (JObject {[ "filesByURL" := JArray [] ]})
  = Some []
  /\ trace (Mcp.upload_files_from_urls u w []) = [EvUploadFilesFromUrl []]
  /\ trace (Mcp.upload_files u w []) = [].
Proof.
  split; [reflexivity |]. split; [| reflexivity].
  by rewrite upload_files_from_urls_stage.
Qed.

(** C6: in [upload-files], when at least one file read fails, the upload
    service is not invoked for that call: the calls made are the reads only,
    no file of the batch is handed to the service, and the error response
    is built from the unreadable paths only, each with its read error. *)
Theorem upload_files_read_failure_skips_service (u : UTApi) (w : World)
    (ps : list FileParam) (p : FileParam) (reason : JsValue) :
  p ∈ ps -> fs_readFile w (filePath p) = inr reason ->
  Mcp.upload_files u w ps
  = (reads ps,
     Normal (error_response "Files upload failed: "
       ("Failed to read files given the following paths: " +:+
        Array_join ", " (read_failure_line w <$> unreadable w ps))))
  /\ Forall (fun ev => is_upload_call ev = false) (trace (Mcp.upload_files u w ps))
  /\ (forall q, ~ uploaded_in (Mcp.upload_files u w ps) q)
  /\ (forall q, q ∈ unreadable w ps
        <-> q ∈ ps /\ exists e, fs_readFile w (filePath q) = inr e).
Proof.
  intros Hp Hr.
  assert (unreadable w ps <> []) as Hne.
  { intros E. pose proof (unreadable_elem w ps p reason Hp Hr) as Hin.
    rewrite E in Hin. by apply elem_of_nil in Hin. }
  pose proof (upload_files_read_abort u w ps Hne) as Hrun.
  assert (Forall (fun ev => is_upload_call ev = false)
            (trace (Mcp.upload_files u w ps))) as Hno.
  { rewrite Hrun. apply reads_not_upload. }
  split; [exact Hrun |]. split; [exact Hno |]. split.
  - intros q. by apply no_upload_call_not_uploaded.
  - intros q. unfold unreadable. rewrite list_elem_of_filter.
    unfold read_outcome. split.
    + intros [Hq Hin]. split; [done |].
      destruct (fs_readFile w (filePath q)) as [b | e]; [done | by exists e].
    + intros [Hin [e He]]. rewrite He. done.
Qed.

Lemma upload_files_read_failure_skips_service_witness :
  trace (Mcp.upload_files Demo.client Demo.world [Demo.a_txt; Demo.missing_txt])
  = [EvReadFile "/tmp/a.txt"; EvReadFile "/tmp/missing.txt"].
Proof.
  pose proof (upload_files_read_failure_skips_service Demo.client Demo.world
                [Demo.a_txt; Demo.missing_txt] Demo.missing_txt
                (Demo.enoent "/tmp/missing.txt")
                (list_elem_of_further _ _ _ (list_elem_of_here _ _))
                eq_refl) as [Hrun _].
  rewrite Hrun. reflexivity.
Defined.

(** C1, the claim as stated fails: in a batch of two files of which exactly
    one path does not exist, the other file, which the service would accept,
    is not handed to the service, and the response lists no success; the
    failed file is named by its path, not by its name. *)
Lemma one_missing_file_blocks_the_batch :
  unreadable Demo.world [Demo.a_txt; Demo.missing_txt] = [Demo.missing_txt]
  /\ uploadFiles Demo.world Demo.client (read_files Demo.world [Demo.a_txt])
     = inl [ {| data := Some (Demo.payload "a.txt"); error := None |} ]
  /\ Mcp.upload_files Demo.client Demo.world [Demo.a_txt; Demo.missing_txt]
     = ([EvReadFile "/tmp/a.txt"; EvReadFile "/tmp/missing.txt"],
        Normal {| content :=
                    text_content "Files upload failed: Failed to read files given the following paths: /tmp/missing.txt: {errno:-2,code:ENOENT,syscall:open}";
                  isError := Some true |})
  /\ ~ uploaded_in
         (Mcp.upload_files Demo.client Demo.world [Demo.a_txt; Demo.missing_txt])
         Demo.a_txt.
Proof.
  split; [reflexivity |]. split; [reflexivity |]. split; [reflexivity |].
  apply no_upload_call_not_uploaded. by repeat constructor.
Qed.

(** C1, as amended: in a batch of [upload-files] in which exactly one file
    path does not exist, the response has [isError = true] and its text
    names exactly that file, by its path, with the read error; the upload
    service is not called, so no file of the batch is uploaded and no
    success is listed. *)
Theorem upload_files_one_missing_file (u : UTApi) (w : World)
    (before after : list FileParam) (p : FileParam) (reason : JsValue) :
  unreadable w before = [] -> unreadable w after = [] ->
  fs_readFile w (filePath p) = inr reason ->
  Mcp.upload_files u w (before ++ p :: after)
  = (reads (before ++ p :: after),
     Normal {| content :=
                 text_content
                   ("Files upload failed: " +:+
                    "Failed to read files given the following paths: " +:+
                    filePath p +:+ ": " +:+ JSON_stringify reason);
               isError := Some true |})
  /\ forall q, ~ uploaded_in (Mcp.upload_files u w (before ++ p :: after)) q.
Proof.
  intros Hb Ha Hr.
  assert (unreadable w (before ++ p :: after) <> []) as Hne.
  { by rewrite (unreadable_single w before after p reason). }
  pose proof (upload_files_read_abort u w _ Hne) as Hrun.
  split.
  - rewrite Hrun, (unreadable_single w before after p reason) by done.
    assert (read_failure_line w p
            = filePath p +:+ ": " +:+ JSON_stringify reason) as Hline.
    { unfold read_failure_line, read_outcome. by rewrite Hr. }
    cbn [fmap list_fmap]. rewrite Hline. reflexivity.
  - intros q. apply no_upload_call_not_uploaded. rewrite Hrun.
    apply reads_not_upload.
Qed.

Lemma upload_files_one_missing_file_witness :
  is_error
    {| content :=
         text_content
           ("Files upload failed: " +:+
            "Failed to read files given the following paths: " +:+
            "/tmp/missing.txt" +:+ ": " +:+
            JSON_stringify (Demo.enoent "/tmp/missing.txt"));
       isError := Some true |} = true
  /\ outcome (Mcp.upload_files Demo.client Demo.world
                ([Demo.a_txt] ++ Demo.missing_txt :: [Demo.b_png]))
     = Normal {| content :=
                   text_content
                     ("Files upload failed: " +:+
                      "Failed to read files given the following paths: " +:+
                      "/tmp/missing.txt" +:+ ": " +:+
                      JSON_stringify (Demo.enoent "/tmp/missing.txt"));
                 isError := Some true |}.
Proof.
  split; [reflexivity |].
  pose proof (upload_files_one_missing_file Demo.client Demo.world
                [Demo.a_txt] [Demo.b_png] Demo.missing_txt
                (Demo.enoent "/tmp/missing.txt") eq_refl eq_refl eq_refl)
    as [Hrun _].
  unfold outcome. rewrite Hrun. reflexivity.
Defined.

(** ** The report, spelled out *)

Lemma batch_response_written (prefix t1 t2 : string) {I : Type}
    (id : I -> string) (results : list UploadResult) (inputs : list I) :
  batch_response prefix t1 t2 id results inputs
  = written_report prefix t1 t2 id
      (successful_items results inputs) (failed_items results inputs).
Proof.
  unfold batch_response, written_report.
  destruct (failed_items results inputs); reflexivity.
Qed.

(** ** The partition of a batch the service answered *)

Lemma Forall_zip_snd {I : Type} (P : UploadResult -> Prop)
    (inputs : list I) (results : list UploadResult) :
  Forall P results -> Forall (fun ir => P ir.2) (zip inputs results).
Proof.
  intros HF. revert inputs. induction HF as [| r results Hr HF IH];
    intros [| i inputs]; simpl; constructor; auto.
Qed.

Lemma filter_data_error_split {I : Type} (z : list (I * UploadResult)) :
  Forall (fun ir => data_xor_error ir.2 = true) z ->
  filter (fun ir => is_Some (data ir.2)) z
  ++ filter (fun ir => is_Some (error ir.2)) z ≡ₚ z.
Proof.
  induction 1 as [| [i r] z Hx _ IH]; [done |].
  rewrite !filter_cons. cbn [snd] in *. unfold data_xor_error in Hx.
  destruct (data r) as [d |], (error r) as [e |]; try discriminate Hx.
  - rewrite decide_True by (by eexists).
    rewrite decide_False by (by intros [? ?]).
    simpl. by rewrite IH.
  - rewrite decide_False by (by intros [? ?]).
    rewrite decide_True by (by eexists).
    by rewrite <- Permutation_middle, IH.
Qed.

Lemma items_partition {I : Type} (results : list UploadResult) (inputs : list I) :
  length results = length inputs ->
  Forall (fun r => data_xor_error r = true) results ->
  partitions (successful_items results inputs).*1
             (failed_items results inputs).*1 inputs.
Proof.
  intros Hlen Hx. unfold partitions, successful_items, failed_items.
  assert ((zip inputs results).*1 = inputs) as Hz by (apply fst_zip; lia).
  pose proof (filter_data_error_split (zip inputs results)
                (Forall_zip_snd _ inputs results Hx)) as Hperm.
  apply (fmap_Permutation fst) in Hperm. rewrite fmap_app, Hz in Hperm.
  split; [| split]; [| | exact Hperm].
  - pose proof (fmap_sublist fst _ _
                  (sublist_filter (fun ir : I * UploadResult => is_Some (data ir.2))
                     (zip inputs results))) as Hs.
    by rewrite Hz in Hs.
  - pose proof (fmap_sublist fst _ _
                  (sublist_filter (fun ir : I * UploadResult => is_Some (error ir.2))
                     (zip inputs results))) as Hs.
    by rewrite Hz in Hs.
Qed.

(** C2, the claim as stated fails for [upload-files]: in a batch of three
    files of which the first cannot be read, the handler answers with the
    unreadable path alone; the two readable files are on neither side: no
    file is handed to the service, and the response does not mention them. *)
Lemma readable_files_are_on_neither_side :
  Mcp.upload_files Demo.client Demo.world
    [Demo.missing_txt; Demo.a_txt; Demo.b_png]
  = ([EvReadFile "/tmp/missing.txt"; EvReadFile "/tmp/a.txt";
      EvReadFile "/tmp/b.png"],
     Normal {| content :=
                 text_content "Files upload failed: Failed to read files given the following paths: /tmp/missing.txt: {errno:-2,code:ENOENT,syscall:open}";
               isError := Some true |})
  /\ includes "Files upload failed: Failed to read files given the following paths: /tmp/missing.txt: {errno:-2,code:ENOENT,syscall:open}"
       "a.txt" = false
  /\ includes "Files upload failed: Failed to read files given the following paths: /tmp/missing.txt: {errno:-2,code:ENOENT,syscall:open}"
       "b.png" = false.
Proof. repeat split; vm_compute; reflexivity. Qed.

(** C2, as amended: for a batch of [upload-files-from-urls], and for a
    non-empty batch of [upload-files] whose files were all read, when the
    service answers with one entry per item, each entry with its payload or
    its error, the successes and the failures the response lists split the
    items of the batch: each list keeps the input order, together they hold
    every item once, and the response is the report of exactly these two
    lists, spelled out.  When a read fails in [upload-files], the response
    reports the unreadable files, in input order, and nothing else. *)
Theorem batch_lists_partition_the_items (u : UTApi) (w : World) :
  (forall urls results,
     uploadFilesFromUrl w u urls = inl results ->
     length results = length urls ->
     Forall (fun r => data_xor_error r = true) results ->
     partitions (successful_items results urls).*1
                (failed_items results urls).*1 urls
     /\ Mcp.upload_files_from_urls u w urls
        = ([EvUploadFilesFromUrl urls], Normal (urls_response results urls))
     /\ Mcp.upload_files_from_urls u w urls
        = ([EvUploadFilesFromUrl urls],
           Normal (written_report "Files by URL upload failed: "
                     "Successfully uploaded files by URL: "
                     "Failed to upload files by URL: " id
                     (successful_items results urls)
                     (failed_items results urls))))
  /\ (forall ps results,
     unreadable w ps = [] -> ps <> [] ->
     uploadFiles w u (read_files w ps) = inl results ->
     length results = length ps ->
     Forall (fun r => data_xor_error r = true) results ->
     partitions (successful_items results (read_files w ps)).*1
                (failed_items results (read_files w ps)).*1 (read_files w ps)
     /\ name <$> read_files w ps = fileName <$> ps
     /\ Mcp.upload_files u w ps
        = (reads ps ++ [EvUploadFiles (read_files w ps)],
           Normal (files_response results (read_files w ps)))
     /\ Mcp.upload_files u w ps
        = (reads ps ++ [EvUploadFiles (read_files w ps)],
           Normal (written_report "Files upload failed: "
                     "Successfully uploaded files: "
                     "Failed to upload files: " name
                     (successful_items results (read_files w ps))
                     (failed_items results (read_files w ps)))))
  /\ (forall ps,
     unreadable w ps <> [] ->
     unreadable w ps `sublist_of` ps
     /\ Mcp.upload_files u w ps
        = (reads ps,
           Normal {| content :=
                       [ {| content_type := "text";
                            text :=
                              "Files upload failed: Failed to read files given the following paths: "
                              +:+ String.concat ", "
                                    ((fun p =>
                                        filePath p +:+ ": " +:+
                                        reason_string (read_outcome w p))
                                     <$> unreadable w ps) |} ];
                     isError := Some true |})).
Proof.
  split; [| split].
  - intros urls results Hans Hlen Hx.
    assert (Mcp.upload_files_from_urls u w urls
            = ([EvUploadFilesFromUrl urls], Normal (urls_response results urls)))
      as Hrun by (apply upload_files_from_urls_answered; [done | lia]).
    split; [by apply items_partition |]. split; [exact Hrun |].
    rewrite Hrun. unfold urls_response. by rewrite batch_response_written.
  - intros ps results Hr Hne Hans Hlen Hx.
    destruct (read_files_all w ps Hr) as [Hl Hn].
    assert (Mcp.upload_files u w ps
            = (reads ps ++ [EvUploadFiles (read_files w ps)],
               Normal (files_response results (read_files w ps)))) as Hrun
      by (apply upload_files_answered; [done .. | lia]).
    split; [apply items_partition; [lia | done] |].
    split; [exact Hn |]. split; [exact Hrun |].
    rewrite Hrun. unfold files_response. by rewrite batch_response_written.
  - intros ps Hne. split; [apply sublist_filter |].
    by rewrite (upload_files_read_abort u w ps Hne).
Qed.

Lemma batch_lists_partition_the_items_witness :
  partitions ["https://x.test/a.png"] ["big.bin"]
             ["https://x.test/a.png"; "big.bin"]
  /\ outcome (Mcp.upload_files Demo.client Demo.world
                [Demo.a_txt; Demo.big_bin; Demo.b_png])
     = Normal {| content :=
                   [ {| content_type := "text";
                        text :=
                          written_failure "Files upload failed: "
                            "Successfully uploaded files: "
                            "Failed to upload files: "
                            ["a.txt: {key:a.txt}"; "b.png: {key:b.png}"]
                            ["big.bin: {code:TOO_LARGE}"] |} ];
                 isError := Some true |}
  /\ outcome (Mcp.upload_files Demo.client Demo.world
                [Demo.missing_txt; Demo.a_txt])
     = Normal {| content :=
                   [ {| content_type := "text";
                        text :=
                          "Files upload failed: Failed to read files given the following paths: /tmp/missing.txt: {errno:-2,code:ENOENT,syscall:open}" |} ];
                 isError := Some true |}.
Proof.
  pose proof (batch_lists_partition_the_items Demo.client Demo.world)
    as (Hurls & Hfiles & Hread).
  split; [| split].
  - destruct (Hurls ["https://x.test/a.png"; "big.bin"]
                (Demo.answer <$> ["https://x.test/a.png"; "big.bin"]))
      as [Hp _]; [reflexivity | reflexivity | by repeat constructor |].
    exact Hp.
  - destruct (Hfiles [Demo.a_txt; Demo.big_bin; Demo.b_png]
                (Demo.answer <$> ["a.txt"; "big.bin"; "b.png"]))
      as (_ & _ & _ & Hrun);
      [reflexivity | discriminate | reflexivity | reflexivity
      | by repeat constructor |].
    unfold outcome. rewrite Hrun. reflexivity.
  - destruct (Hread [Demo.missing_txt; Demo.a_txt]) as [_ Hrun];
      [discriminate |].
    unfold outcome. rewrite Hrun. reflexivity.
Defined.

(** ** A batch the service accepted as a whole *)

Lemma filter_all {A : Type} (P : A -> Prop) `{!forall x, Decision (P x)}
    (l : list A) :
  Forall P l -> filter P l = l.
Proof.
  induction 1 as [| x l Hx _ IH]; [done |].
  by rewrite filter_cons_True, IH.
Qed.

Lemma filter_none {A : Type} (P : A -> Prop) `{!forall x, Decision (P x)}
    (l : list A) :
  Forall (fun x => ~ P x) l -> filter P l = [].
Proof.
  induction 1 as [| x l Hx _ IH]; [done |].
  by rewrite filter_cons_False.
Qed.

Lemma accepted_items {I : Type} (results : list UploadResult) (inputs : list I) :
  Forall (fun r => accepted r = true) results ->
  successful_items results inputs = zip inputs results
  /\ failed_items results inputs = [].
Proof.
  intros Hacc. unfold successful_items, failed_items. split.
  - apply filter_all. apply (Forall_zip_snd (fun r => is_Some (data r))).
    eapply Forall_impl; [exact Hacc |]. intros r Hr. unfold accepted in Hr.
    apply andb_true_iff in Hr as [Hd _]. by apply bool_decide_eq_true in Hd.
  - apply filter_none. apply (Forall_zip_snd (fun r => ~ is_Some (error r))).
    eapply Forall_impl; [exact Hacc |]. intros r Hr. unfold accepted in Hr.
    apply andb_true_iff in Hr as [_ He]. apply bool_decide_eq_true in He.
    rewrite He. by intros [? ?].
Qed.

Lemma item_lines_by_input (detail : UploadResult -> option JsValue)
    (w : World) (ps : list FileParam) (results : list UploadResult) :
  unreadable w ps = [] ->
  item_line name detail <$> zip (read_files w ps) results
  = zip_with (fun p r => fileName p +:+ ": " +:+
                         JSON_stringify_nullable (detail r)) ps results.
Proof.
  intros Hr. destruct (read_files_all w ps Hr) as [_ Hn].
  transitivity
    (zip_with (fun n r => n +:+ ": " +:+ JSON_stringify_nullable (detail r))
       (fileName <$> ps) results).
  - rewrite <- Hn, zip_with_fmap_l.
    rewrite (zip_with_zip
               (fun (z : File) (r : UploadResult) =>
                  name z +:+ ": " +:+ JSON_stringify_nullable (detail r))).
    apply list_fmap_ext. by intros _ [f r] _.
  - by rewrite zip_with_fmap_l.
Qed.

(** C3: for a non-empty batch of files whose paths all exist and whose
    uploads the service accepts, [upload-files] reads every file, calls the
    service once with all of them, and returns a response that is not an
    error.  Its text is the success text spelled out, and the list in it has
    one line per input, in input order: the line of an input is its file
    name, a colon and the printed payload of its upload. *)
Theorem upload_files_all_accepted (u : UTApi) (w : World) (ps : list FileParam)
    (results : list UploadResult) :
  ps <> [] ->
  unreadable w ps = [] ->
  uploadFiles w u (read_files w ps) = inl results ->
  length results = length ps ->
  Forall (fun r => accepted r = true) results ->
  exists r listed,
    Mcp.upload_files u w ps
    = (reads ps ++ [EvUploadFiles (read_files w ps)], Normal r)
    /\ isError r = None
    /\ is_error r = false
    /\ content r
       = [ {| content_type := "text";
              text := String (ascii_of_nat 10)
                        ("                Successfully uploaded files: " +:+
                         String.concat ", " listed +:+
                         String (ascii_of_nat 10) "                ") |} ]
    /\ length listed = length ps
    /\ (forall i p res,
          ps !! i = Some p -> results !! i = Some res ->
          exists d,
            data res = Some d
            /\ listed !! i = Some (fileName p +:+ ": " +:+ JSON_stringify d)
            /\ includes (response_text r)
                 (fileName p +:+ ": " +:+ JSON_stringify d) = true)
    /\ length (Mcp.successfulUploads results (read_files w ps)) = length ps
    /\ (Mcp.successfulUploads results (read_files w ps)).*2
       = Some <$> read_files w ps
    /\ name <$> read_files w ps = fileName <$> ps.
Proof.
  intros Hne Hr Hans Hlen Hacc.
  destruct (read_files_all w ps Hr) as [Hl Hn].
  destruct (accepted_items results (read_files w ps) Hacc) as [Hs Hf].
  assert ((Mcp.successfulUploads results (read_files w ps)).*2
          = Some <$> read_files w ps) as Hord.
  { rewrite successfulUploads_zip, Hs by lia.
    rewrite <- list_fmap_compose.
    rewrite <- (fst_zip (read_files w ps) results) at 2 by lia.
    by rewrite <- list_fmap_compose. }
  set (listed := zip_with (fun p res => fileName p +:+ ": " +:+
                                        JSON_stringify_nullable (data res))
                   ps results).
  assert (forall i p res, ps !! i = Some p -> results !! i = Some res ->
            exists d, data res = Some d
              /\ listed !! i = Some (fileName p +:+ ": " +:+ JSON_stringify d))
    as Hlisted.
  { intros i p res Hp Hres.
    pose proof (proj1 (Forall_lookup _ _) Hacc i res Hres) as Ha.
    unfold accepted in Ha. apply andb_true_iff in Ha as [Hd _].
    apply bool_decide_eq_true in Hd as [d Hd]. exists d. split; [done |].
    unfold listed. rewrite lookup_zip_with, Hp, Hres. simpl. by rewrite Hd. }
  exists (files_response results (read_files w ps)), listed.
  split; [apply upload_files_answered; [done .. | lia] |].
  unfold files_response. rewrite batch_response_written, Hf, Hs.
  cbn [written_report]. rewrite (item_lines_by_input data w ps results Hr).
  fold listed.
  split; [reflexivity |]. split; [reflexivity |]. split; [reflexivity |].
  split; [unfold listed; rewrite length_zip_with; lia |].
  split; [| split; [| split; [exact Hord | exact Hn]]].
  - intros i p res Hp Hres.
    destruct (Hlisted i p res Hp Hres) as (d & Hd & Hi).
    exists d. split; [done |]. split; [done |].
    apply occurs_includes. cbn [response_text content text].
    unfold written_success.
    change (String (ascii_of_nat 10) ?x) with (String (ascii_of_nat 10) "" +:+ x).
    do 3 apply occurs_app_l. apply occurs_app_r.
    apply (occurs_join ", "). by apply (list_elem_of_lookup_2 _ i).
  - rewrite <- (length_fmap snd), Hord, length_fmap. exact Hl.
Qed.

Lemma upload_files_all_accepted_witness :
  exists r,
    Mcp.upload_files Demo.client Demo.world [Demo.a_txt; Demo.b_png]
    = ([EvReadFile "/tmp/a.txt"; EvReadFile "/tmp/b.png";
        EvUploadFiles (read_files Demo.world [Demo.a_txt; Demo.b_png])],
       Normal r)
    /\ is_error r = false
    /\ content r
       = [ {| content_type := "text";
              text := String (ascii_of_nat 10)
                        ("                Successfully uploaded files: a.txt: {key:a.txt}, b.png: {key:b.png}"
                         +:+ String (ascii_of_nat 10) "                ") |} ].
Proof.
  destruct (upload_files_all_accepted Demo.client Demo.world
              [Demo.a_txt; Demo.b_png] (Demo.answer <$> ["a.txt"; "b.png"]))
    as (r & listed & Hrun & _ & Herr & Htext & Hlen & Hlisted & _);
    [discriminate | reflexivity | reflexivity | reflexivity
    | by repeat constructor |].
  exists r. split; [exact Hrun |]. split; [exact Herr |].
  rewrite Htext.
  destruct (Hlisted 0 Demo.a_txt (Demo.answer "a.txt") eq_refl eq_refl)
    as (d0 & Hd0 & Hl0 & _).
  destruct (Hlisted 1 Demo.b_png (Demo.answer "b.png") eq_refl eq_refl)
    as (d1 & Hd1 & Hl1 & _).
  injection Hd0 as <-. injection Hd1 as <-.
  destruct listed as [| x [| y [| z listed]]]; try discriminate Hlen.
  injection Hl0 as ->. injection Hl1 as ->. reflexivity.
Defined.

(** ** When a response is an error *)

Lemma upload_file_run (u : UTApi) (w : World) (file fileName fileType : string) :
  Mcp001.upload_file u w (file, fileName, fileType)
  = match fs_readFile w file with
    | inr e =>
        ([EvReadFile file],
         Normal (error_response "File upload failed: " (message_or_unknown e)))
    | inl buffer =>
        ([EvReadFile file; EvUploadFile (new_File buffer fileName fileType)],
         Normal
           match uploadFiles_one w u (new_File buffer fileName fileType) with
           | inr e => error_response "File upload failed: " (message_or_unknown e)
           | inl result =>
               match error result with
               | Some e =>
                   error_response "File upload failed: "
                     ("Upload failed: " +:+ JSON_stringify e)
               | None =>
                   {| content :=
                        text_content ("File uploaded successfully: " +:+
                                      JSON_stringify_nullable (data result));
                      isError := None |}
               end
           end)
    end.
Proof.
  unfold Mcp001.upload_file.
  destruct (fs_readFile w file) as [buffer | e]; [| reflexivity].
  destruct (uploadFiles_one w u (new_File buffer fileName fileType))
    as [result | e] eqn:E; cbn; rewrite E; [| reflexivity].
  cbn. destruct (error result); reflexivity.
Qed.

Lemma is_error_batch_response (prefix t1 t2 : string) {I : Type}
    (id : I -> string) (results : list UploadResult) (inputs : list I) :
  is_error (batch_response prefix t1 t2 id results inputs)
  = (0 <? length (failed_items results inputs)).
Proof. unfold batch_response. by destruct (0 <? _). Qed.

Lemma failed_items_length_iff {I : Type} (results : list UploadResult)
    (inputs : list I) :
  length results <= length inputs ->
  (0 <? length (failed_items results inputs)) = true
  <-> Exists (fun r => is_Some (error r)) results.
Proof.
  intros Hlen. rewrite <- (failedUploads_length_iff results inputs).
  by rewrite failedUploads_zip, length_fmap.
Qed.

(** C4, the claim as stated fails for the empty batch: [upload-files]
    answers with [isError = true] although the batch has no item, so none
    failed: nothing was read and nothing was sent. *)
Lemma empty_batch_is_an_error_without_a_failure :
  Mcp.upload_files Demo.client Demo.world []
  = ([], Normal (error_response "Files upload failed: "
                   "No files could be read to be uploaded"))
  /\ is_error (error_response "Files upload failed: "
                 "No files could be read to be uploaded") = true
  /\ unreadable Demo.world [] = []
  /\ ~ (exists p : FileParam, p ∈ @nil FileParam).
Proof.
  repeat split. intros [p Hp]. by apply elem_of_nil in Hp.
Qed.

(** C4, as amended: the response of [upload-file] has [isError = true]
    exactly when its single operation failed; the response of
    [upload-files-from-urls] exactly when the call to the service faulted or
    the service answered some item with an error; and the response of
    [upload-files], the service giving no more answers than it was sent
    files, exactly when the batch is empty, or a read failed, or the call
    to the service faulted or answered some item with an error. *)
Theorem is_error_iff_something_failed (u : UTApi) (w : World) :
  (forall params,
     exists r, outcome (Mcp001.upload_file u w params) = Normal r
       /\ (is_error r = true <-> upload_file_failed u w params))
  /\ (forall urls,
     exists r, outcome (Mcp.upload_files_from_urls u w urls) = Normal r
       /\ (is_error r = true <-> upload_failed (uploadFilesFromUrl w u urls)))
  /\ (forall ps,
     (forall results, uploadFiles w u (read_files w ps) = inl results ->
                      length results <= length ps) ->
     exists r, outcome (Mcp.upload_files u w ps) = Normal r
       /\ (is_error r = true
           <-> ps = [] \/ unreadable w ps <> []
               \/ upload_failed (uploadFiles w u (read_files w ps)))).
Proof.
  split; [| split].
  - intros [[file fileName] fileType]. rewrite upload_file_run.
    unfold upload_file_failed.
    destruct (fs_readFile w file) as [buffer | e];
      [| eexists; split; [reflexivity | done]].
    destruct (uploadFiles_one w u (new_File buffer fileName fileType))
      as [result | e]; [| eexists; split; [reflexivity | done]].
    destruct (error result) as [e |]; eexists; (split; [reflexivity |]).
    + split; [by eexists | done].
    + split; [discriminate | by intros [? ?]].
  - intros urls. destruct (uploadFilesFromUrl w u urls) as [results | e] eqn:E.
    + rewrite (upload_files_from_urls_reported u w urls results E).
      eexists. split; [reflexivity |].
      rewrite <- (failedUploads_length_iff results urls).
      by destruct (0 <? length (Mcp.failedUploads results urls)).
    + rewrite upload_files_from_urls_stage, E.
      eexists. split; [reflexivity | done].
  - intros ps Hlen. destruct ps as [| p0 ps0] eqn:Eps.
    { eexists. split; [reflexivity |]. split; [by left | done]. }
    rewrite <- Eps in *. assert (ps <> []) as Hne by (by rewrite Eps).
    clear Eps p0 ps0.
    destruct (unreadable w ps) as [| q qs] eqn:Er.
    + destruct (uploadFiles w u (read_files w ps)) as [results | e] eqn:E.
      * rewrite (upload_files_answered u w ps results Er Hne E (Hlen _ eq_refl)).
        eexists. split; [reflexivity |].
        unfold files_response. rewrite is_error_batch_response.
        destruct (read_files_all w ps Er) as [Hl _].
        rewrite failed_items_length_iff by (rewrite Hl; by apply Hlen).
        simpl. split; [tauto |]. intros [? | [? | ?]]; done.
      * rewrite (upload_files_fault u w ps e Er Hne E).
        eexists. split; [reflexivity |]. simpl. split; [tauto | done].
    + assert (unreadable w ps <> []) as Hu by (by rewrite Er).
      rewrite <- Er. rewrite (upload_files_read_abort u w ps Hu).
      eexists. split; [reflexivity |]. split; [tauto | done].
Qed.

Lemma is_error_iff_something_failed_witness :
  (exists r,
     outcome (Mcp.upload_files Demo.client Demo.world [Demo.a_txt; Demo.big_bin])
     = Normal r
     /\ (is_error r = true
         <-> [Demo.a_txt; Demo.big_bin] = []
             \/ unreadable Demo.world [Demo.a_txt; Demo.big_bin] <> []
             \/ upload_failed
                  (uploadFiles Demo.world Demo.client
                     (read_files Demo.world [Demo.a_txt; Demo.big_bin]))))
  /\ upload_failed
       (uploadFiles Demo.world Demo.client
          (read_files Demo.world [Demo.a_txt; Demo.big_bin])).
Proof.
  split.
  - apply (is_error_iff_something_failed Demo.client Demo.world).
    intros results [= <-]. simpl. lia.
  - right. left. by eexists.
Defined.

(** ** Every failure is in the text *)

Lemma response_text_error (prefix msg : string) :
  response_text (error_response prefix msg) = prefix +:+ msg.
Proof. reflexivity. Qed.

Lemma list_nonempty_length {A : Type} (l : list A) (x : A) :
  x ∈ l -> (0 <? length l) = true.
Proof. destruct l; [by intros ?%elem_of_nil | done]. Qed.




(** ** Schema validation and start-up *)

Lemma created_server (tok : option string) (server : McpServer) :
  Mcp.createMCPUploadThing tok = Normal server ->
  server
  = {| server_name := "mcp-uploadthing";
       server_version := "0.0.2";
       registered :=
         [Mcp.upload_files_from_urls_tool {| token := default "" tok |};
          Mcp.upload_files_tool {| token := default "" tok |}] |}.
Proof.
  unfold Mcp.createMCPUploadThing. destruct (not_token tok); [discriminate |].
  by intros [= <-].
Qed.

Lemma not_token_true_iff (tok : option string) :
  not_token tok = true <-> no_token tok.
Proof.
  unfold not_token, no_token. destruct tok as [s |].
  - rewrite bool_decide_eq_true. split; [intros ->; by right |].
    intros [? | [= ->]]; done.
  - split; [by left | done].
Qed.

(** Valid URLs do reach the handler. *)
Lemma valid_urls_reach_the_handler (tok : option string) (server : McpServer)
    (w : World) (urls : list string) :
  Mcp.createMCPUploadThing tok = Normal server ->
  Forall (fun url => is_url w url = true) urls ->
  call_tool server w "upload-files-from-urls"
    (JObject {[ "filesByURL" := JArray (JString <$> urls) ]})
  = Ran (Mcp.upload_files_from_urls {| token := default "" tok |} w urls).
Proof.
  intros Hs Hv. rewrite (created_server tok server Hs).
  unfold call_tool. cbn [registered find tool_name Mcp.upload_files_from_urls_tool].
  rewrite bool_decide_eq_true_2 by done.
  cbn [tool_schema tool_callback Mcp.upload_files_from_urls_tool].
  unfold Mcp.upload_files_from_urls_schema, Zod.z_property.
  rewrite lookup_singleton_eq. cbn [mbind option_bind Zod.z_array].
  assert (mapM (Zod.z_string_url w) (JString <$> urls) = Some urls) as ->;
    [| reflexivity].
  apply mapM_Some. induction Hv as [| url urls Hu _ IH]; [constructor |].
  rewrite fmap_cons. constructor; [| exact IH].
  unfold Zod.z_string_url. by rewrite Hu.
Qed.

(** C9: a call to [upload-files-from-urls] whose [filesByURL] array holds a
    string that is not a valid URL is rejected by the schema of the tool:
    the handler does not run and no call to the outside world is made. *)
Theorem invalid_url_rejected_before_any_call (tok : option string)
    (server : McpServer) (w : World) (fields : gmap string Json)
    (items : list Json) (bad : string) :
  Mcp.createMCPUploadThing tok = Normal server ->
  fields !! "filesByURL" = Some (JArray items) ->
  JString bad ∈ items ->
  is_url w bad = false ->
  call_tool server w "upload-files-from-urls" (JObject fields) = InvalidParams
  /\ calls_made (call_tool server w "upload-files-from-urls" (JObject fields)) = [].
Proof.
  intros Hs Hf Hin Hbad.
  assert (call_tool server w "upload-files-from-urls" (JObject fields)
          = InvalidParams) as Hcall; [| by rewrite Hcall].
  rewrite (created_server tok server Hs).
  unfold call_tool. cbn [registered find tool_name Mcp.upload_files_from_urls_tool].
  rewrite bool_decide_eq_true_2 by done.
  cbn [tool_schema tool_callback Mcp.upload_files_from_urls_tool].
  unfold Mcp.upload_files_from_urls_schema, Zod.z_property.
  rewrite Hf. cbn [mbind option_bind Zod.z_array].
  assert (mapM (Zod.z_string_url w) items = None) as ->; [| reflexivity].
  apply mapM_None_2, Exists_exists. exists (JString bad). split; [done |].
  unfold Zod.z_string_url. by rewrite Hbad.
Qed.

Lemma invalid_url_rejected_before_any_call_witness :
  calls_made
    (call_tool
       {| server_name := "mcp-uploadthing";
          server_version := "0.0.2";
          registered :=
            [Mcp.upload_files_from_urls_tool Demo.client;
             Mcp.upload_files_tool Demo.client] |}
       Demo.world "upload-files-from-urls"
       (JObject {[ "filesByURL" :=
                     JArray [JString "https://x.test/a.png"; JString "not a url"] ]}))
  = [].
Proof.
  apply (invalid_url_rejected_before_any_call (Some "sk_live_demo") _ Demo.world
           {[ "filesByURL" :=
                JArray [JString "https://x.test/a.png"; JString "not a url"] ]}
           [JString "https://x.test/a.png"; JString "not a url"] "not a url");
    [reflexivity | reflexivity
    | apply list_elem_of_further, list_elem_of_here | reflexivity].
Defined.

(** C10: creating the server, in either version, fails exactly when the
    token is absent or empty, and so does the start of the process, which
    then exits with code 1; with a non-empty token the server is created
    with its tools, whose client holds that token, and the process serves.
    No handler looks at the token: run with a client that holds an empty
    token, against a service that answers it as it answers the real client,
    each handler does what it does with the real client. *)
Theorem token_is_checked_at_creation_only (tok : option string) :
  ((exists e, Mcp.createMCPUploadThing tok = Throw e) <-> no_token tok)
  /\ ((exists e, Mcp001.createMCPUploadThing tok = Throw e) <-> no_token tok)
  /\ (Index.start tok = Index.Exited 1 <-> no_token tok)
  /\ (forall t, tok = Some t -> t <> "" ->
      Mcp.createMCPUploadThing tok
      = Normal {| server_name := "mcp-uploadthing";
                  server_version := "0.0.2";
                  registered :=
                    [Mcp.upload_files_from_urls_tool {| token := t |};
                     Mcp.upload_files_tool {| token := t |}] |}
      /\ Mcp001.createMCPUploadThing tok
         = Normal ({| server_name := "mcp-uploadthing";
                      server_version := "0.0.1";
                      registered := [Mcp001.upload_file_tool {| token := t |}] |},
                   {| token := t |})
      /\ Index.start tok
         = Index.Serving
             {| server_name := "mcp-uploadthing";
                server_version := "0.0.1";
                registered := [Mcp001.upload_file_tool {| token := t |}] |})
  /\ (forall u w ps urls params,
      Mcp.upload_files u w ps
      = Mcp.upload_files {| token := "" |} (answering_as u w) ps
      /\ Mcp.upload_files_from_urls u w urls
         = Mcp.upload_files_from_urls {| token := "" |} (answering_as u w) urls
      /\ Mcp001.upload_file u w params
         = Mcp001.upload_file {| token := "" |} (answering_as u w) params).
Proof.
  rewrite <- not_token_true_iff.
  unfold Index.start, Index.main, Mcp.createMCPUploadThing,
    Mcp001.createMCPUploadThing.
  split; [| split; [| split; [| split]]].
  - destruct (not_token tok); split; try done; [by eexists | by intros [? ?]].
  - destruct (not_token tok); split; try done; [by eexists | by intros [? ?]].
  - destruct (not_token tok); split; done.
  - intros t -> Ht. unfold not_token. by rewrite bool_decide_eq_false_2.
  - intros u w ps urls [[file fileName] fileType]. repeat split.
Qed.

Lemma token_is_checked_at_creation_only_witness :
  Index.start (Some "sk_live_demo")
  = Index.Serving
      {| server_name := "mcp-uploadthing";
         server_version := "0.0.1";
         registered := [Mcp001.upload_file_tool Demo.client] |}
  /\ (Index.start None = Index.Exited 1 <-> no_token None).
Proof.
  split.
  - pose proof (token_is_checked_at_creation_only (Some "sk_live_demo"))
      as (_ & _ & _ & Hok & _).
    destruct (Hok "sk_live_demo" eq_refl) as (_ & _ & Hstart); [discriminate |].
    exact Hstart.
  - apply (token_is_checked_at_creation_only None).
Defined.

(** * Further properties of the handlers *)

(** ** What is read and what is sent *)

Lemma read_files_pointwise (w : World) (ps : list FileParam) :
  unreadable w ps = [] ->
  Forall2 (fun p file =>
             exists buffer,
               fs_readFile w (filePath p) = inl buffer
               /\ file = new_File buffer (fileName p) (fileType p))
          ps (read_files w ps).
Proof.
  unfold unreadable, read_files.
  induction ps as [| p ps IH]; [constructor |].
  rewrite filter_cons. cbn [omap list_omap].
  pose proof (eq_refl (read_outcome w p)) as Hro. unfold read_outcome at 2 in Hro.
  destruct (fs_readFile w (filePath p)) as [buffer | e] eqn:E; rewrite Hro;
    cbn [is_rejected fulfilled_value decide_rel]; [| discriminate].
  intros H. constructor; [by exists buffer | by apply IH].
Qed.

Lemma Blob_type_kept (t : string) : kept_by_File t = true -> Blob_type t = t.
Proof.
  unfold kept_by_File, Blob_type. intros H.
  assert (string_forallb type_char_allowed t = true
          /\ string_map ascii_lowercase t = t) as [-> Hm]; [| exact Hm].
  induction t as [| c t IH]; [done |].
  cbn [string_forallb string_map] in *.
  apply andb_true_iff in H as [Hc Ht]. apply andb_true_iff in Hc as [Ha Hu].
  destruct (IH Ht) as [Hall Hmap]. rewrite Ha, Hall, Hmap.
  split; [reflexivity |]. unfold ascii_lowercase.
  apply negb_true_iff in Hu. by rewrite Hu.
Qed.

(** X1: when every file of a non-empty batch is read, [upload-files] hands
    the service one file object per input, in input order; each object
    carries the name given for that input, the bytes read at its path, and
    as its type the MIME type given as the [File] constructor keeps it: in
    ASCII lower case, or empty when it holds a character outside U+0020 to
    U+007E.  A type of such characters without capital letters is kept as
    given. *)
Theorem upload_files_sends_what_it_read (u : UTApi) (w : World)
    (ps : list FileParam) :
  unreadable w ps = [] -> ps <> [] ->
  exists files,
    trace (Mcp.upload_files u w ps) = reads ps ++ [EvUploadFiles files]
    /\ length files = length ps
    /\ forall i p, ps !! i = Some p ->
         exists buffer,
           fs_readFile w (filePath p) = inl buffer
           /\ files !! i
              = Some {| name := fileName p;
                        type := Blob_type (fileType p);
                        bytes := buffer |}
           /\ (kept_by_File (fileType p) = true ->
               files !! i
               = Some {| name := fileName p; type := fileType p;
                         bytes := buffer |}).
Proof.
  intros Hr Hne. exists (read_files w ps).
  rewrite upload_files_upload_stage by done.
  split; [reflexivity |]. split; [apply (read_files_all w ps Hr) |].
  intros i p Hp.
  destruct (Forall2_lookup_l _ _ _ i p (read_files_pointwise w ps Hr) Hp)
    as (file & Hf & buffer & Hb & ->).
  exists buffer. split; [done |]. split; [done |].
  intros Hk. rewrite Hf. unfold new_File. by rewrite (Blob_type_kept _ Hk).
Qed.

Lemma upload_files_sends_what_it_read_witness :
  exists files,
    trace (Mcp.upload_files Demo.client Demo.world [Demo.a_txt; Demo.c_jpg])
    = reads [Demo.a_txt; Demo.c_jpg] ++ [EvUploadFiles files]
    /\ files !! 0
       = Some {| name := "a.txt"; type := "text/plain"; bytes := [] |}
    /\ files !! 1
       = Some {| name := "c.jpg"; type := "image/jpeg"; bytes := [] |}.
Proof.
  destruct (upload_files_sends_what_it_read Demo.client Demo.world
              [Demo.a_txt; Demo.c_jpg] eq_refl)
    as (files & Htr & _ & Hfiles); [discriminate |].
  exists files. split; [exact Htr |].
  destruct (Hfiles 0 Demo.a_txt eq_refl) as (b0 & Hb0 & _ & Hf0).
  destruct (Hfiles 1 Demo.c_jpg eq_refl) as (b1 & Hb1 & Hf1 & _).
  rewrite (Hf0 eq_refl), Hf1.
  injection Hb0 as <-. injection Hb1 as <-. split; reflexivity.
Defined.

(** X2: [upload-files] starts the read of every file of the batch, once
    each and in input order, whether or not an earlier read fails; after
    the reads it makes at most one call, to the upload service, and it
    makes that call exactly when the batch is not empty and every file was
    read.  [upload-files-from-urls] makes exactly one call, to the service,
    with the list of URLs as it was given. *)
Theorem reads_come_first_and_one_upload_follows (u : UTApi) (w : World) :
  (forall ps,
     exists rest,
       trace (Mcp.upload_files u w ps) = reads ps ++ rest
       /\ (rest = [] \/ rest = [EvUploadFiles (read_files w ps)])
       /\ (rest <> [] <-> ps <> [] /\ unreadable w ps = []))
  /\ (forall urls,
     trace (Mcp.upload_files_from_urls u w urls) = [EvUploadFilesFromUrl urls]).
Proof.
  split.
  - intros ps. destruct (unreadable w ps) as [| q qs] eqn:Er.
    + destruct ps as [| p ps'] eqn:Eps.
      * exists []. split; [reflexivity |]. split; [by left |].
        split; [done | by intros [? _]].
      * rewrite <- Eps in *. assert (ps <> []) as Hne by (by rewrite Eps).
        exists [EvUploadFiles (read_files w ps)].
        rewrite upload_files_upload_stage by done.
        split; [reflexivity |]. split; [by right | done].
    + assert (unreadable w ps <> []) as Hu by (by rewrite Er).
      exists []. rewrite (upload_files_read_abort u w ps Hu).
      split; [by rewrite app_nil_r |]. split; [by left |].
      split; [done |]. intros [_ H]. by rewrite H in Er.
  - intros urls. by rewrite upload_files_from_urls_stage.
Qed.

(** ** The single upload of version 0.0.1 *)

(** X3: when the file is read and the service answers without an error,
    [upload-file] reads the path once and hands the service one file object
    with the given name, the bytes read, and as its type the given MIME type
    as the [File] constructor keeps it (in ASCII lower case, or empty when it
    holds a character outside U+0020 to U+007E); it returns a response
    without [isError] whose text is [File uploaded successfully: ] followed
    by the printed payload. *)
Theorem upload_file_success (u : UTApi) (w : World) (file n t : string)
    (buffer : Buffer) (result : UploadResult) :
  fs_readFile w file = inl buffer ->
  uploadFiles_one w u {| name := n; type := Blob_type t; bytes := buffer |}
  = inl result ->
  error result = None ->
  Mcp001.upload_file u w (file, n, t)
  = ([EvReadFile file;
      EvUploadFile {| name := n; type := Blob_type t; bytes := buffer |}],
     Normal {| content :=
                 text_content ("File uploaded successfully: " +:+
                               JSON_stringify_nullable (data result));
               isError := None |})
  /\ includes ("File uploaded successfully: " +:+
               JSON_stringify_nullable (data result)) "successfully" = true.
Proof.
  intros Hb Hres He. split.
  - rewrite upload_file_run, Hb. unfold new_File. by rewrite Hres, He.
  - apply occurs_includes.
    exists "File uploaded ", (": " +:+ JSON_stringify_nullable (data result)).
    reflexivity.
Qed.

Lemma upload_file_success_witness :
  Mcp001.upload_file Demo.client Demo.world
    ("/tmp/a.txt", "a.txt", "Text/Plain; Charset=UTF-8")
  = ([EvReadFile "/tmp/a.txt";
      EvUploadFile {| name := "a.txt"; type := "text/plain; charset=utf-8";
                      bytes := [] |}],
     Normal {| content := text_content "File uploaded successfully: {key:a.txt}";
               isError := None |}).
Proof.
  apply (upload_file_success Demo.client Demo.world "/tmp/a.txt" "a.txt"
           "Text/Plain; Charset=UTF-8" [] (Demo.answer "a.txt")); reflexivity.
Defined.

(** X4: when the read fails, [upload-file] never calls the upload service:
    its only call is the read, and the error text is [File upload failed: ]
    followed by the message of the read error.  When the service answers
    with an error, the error text is [File upload failed: Upload failed: ]
    followed by the printed error. *)
Theorem upload_file_failures (u : UTApi) (w : World) (file n t : string) :
  (forall reason,
     fs_readFile w file = inr reason ->
     Mcp001.upload_file u w (file, n, t)
     = ([EvReadFile file],
        Normal {| content :=
                    text_content ("File upload failed: " +:+
                                  message_or_unknown reason);
                  isError := Some true |})
     /\ (instanceof_Error reason = true ->
         includes ("File upload failed: " +:+ message_or_unknown reason)
           (message reason) = true))
  /\ (forall buffer result e,
     fs_readFile w file = inl buffer ->
     uploadFiles_one w u (new_File buffer n t) = inl result ->
     error result = Some e ->
     outcome (Mcp001.upload_file u w (file, n, t))
     = Normal {| content :=
                   text_content ("File upload failed: Upload failed: " +:+
                                 JSON_stringify e);
                 isError := Some true |}).
Proof.
  split.
  - intros reason Hr. split; [by rewrite upload_file_run, Hr |].
    intros Hi. unfold message_or_unknown. rewrite Hi.
    apply occurs_includes, occurs_app_l, occurs_refl.
  - intros buffer result e Hb Hres He.
    rewrite upload_file_run, Hb. by rewrite Hres, He.
Qed.

Lemma upload_file_failures_witness :
  trace (Mcp001.upload_file Demo.client Demo.world
           ("/tmp/missing.txt", "report.txt", "text/plain"))
  = [EvReadFile "/tmp/missing.txt"]
  /\ outcome (Mcp001.upload_file Demo.client Demo.world
                ("/tmp/big.bin", "big.bin", "application/octet-stream"))
     = Normal {| content :=
                   text_content "File upload failed: Upload failed: {code:TOO_LARGE}";
                 isError := Some true |}.
Proof.
  pose proof (upload_file_failures Demo.client Demo.world) as H.
  split.
  - destruct (H "/tmp/missing.txt" "report.txt" "text/plain") as [Hread _].
    destruct (Hread (Demo.enoent "/tmp/missing.txt") eq_refl) as [Hrun _].
    by rewrite Hrun.
  - destruct (H "/tmp/big.bin" "big.bin" "application/octet-stream")
      as [_ Hsvc].
    apply (Hsvc [] (Demo.answer "big.bin") Demo.too_large); reflexivity.
Defined.

(** ** Faults of the service call *)

(** X5: when the call to the upload service rejects, each handler answers
    with an error response whose text is the prefix of its own [catch]
    followed by the message of the rejection when that is an [Error], and by
    [Unknown error] when it is not. *)
Theorem service_fault_is_forwarded (u : UTApi) (w : World) (e : JsValue) :
  (forall ps,
     unreadable w ps = [] -> ps <> [] ->
     uploadFiles w u (read_files w ps) = inr e ->
     outcome (Mcp.upload_files u w ps)
     = Normal (error_response "Files upload failed: "
                 (if instanceof_Error e then message e else "Unknown error")))
  /\ (forall urls,
     uploadFilesFromUrl w u urls = inr e ->
     outcome (Mcp.upload_files_from_urls u w urls)
     = Normal (error_response "Files by URL upload failed: "
                 (if instanceof_Error e then message e else "Unknown error")))
  /\ (forall file n t buffer,
     fs_readFile w file = inl buffer ->
     uploadFiles_one w u (new_File buffer n t) = inr e ->
     outcome (Mcp001.upload_file u w (file, n, t))
     = Normal (error_response "File upload failed: "
                 (if instanceof_Error e then message e else "Unknown error"))).
Proof.
  split; [| split].
  - intros ps Hr Hne Hans. by rewrite (upload_files_fault u w ps e).
  - intros urls Hans. by rewrite upload_files_from_urls_stage, Hans.
  - intros file n t buffer Hb Hans.
    rewrite upload_file_run, Hb. by rewrite Hans.
Qed.

Lemma service_fault_is_forwarded_witness :
  outcome (Mcp.upload_files Demo.client Demo.offline [Demo.a_txt])
  = Normal (error_response "Files upload failed: " "fetch failed")
  /\ outcome (Mcp.upload_files_from_urls Demo.client Demo.offline
                ["https://x.test/a.png"])
     = Normal (error_response "Files by URL upload failed: " "fetch failed")
  /\ outcome (Mcp001.upload_file Demo.client Demo.offline
                ("/tmp/a.txt", "a.txt", "text/plain"))
     = Normal (error_response "File upload failed: " "fetch failed").
Proof.
  pose proof (service_fault_is_forwarded Demo.client Demo.offline
                Demo.fetch_failed) as (Hfiles & Hurls & Hfile).
  split; [| split].
  - apply (Hfiles [Demo.a_txt]); [reflexivity | discriminate | reflexivity].
  - apply (Hurls ["https://x.test/a.png"]). reflexivity.
  - apply (Hfile "/tmp/a.txt" "a.txt" "text/plain" []); reflexivity.
Defined.

(** ** The envelope *)

Lemma error_response_well_formed (prefix msg : string) :
  well_formed_answer prefix (error_response prefix msg).
Proof.
  split; [by eexists |]. right. split; [reflexivity |].
  rewrite response_text_error. apply prefix_app.
Qed.

Lemma success_well_formed (prefix t : string) :
  well_formed_answer prefix {| content := text_content t; isError := None |}.
Proof. split; [by eexists | by left]. Qed.

Lemma try_catch_well_formed (prefix : string) (m : Async ToolResponse) :
  (forall r, m.2 = Normal r -> well_formed_answer prefix r) ->
  exists r,
    outcome (try_catch m (fun error =>
               mret (error_response prefix (message_or_unknown error))))
    = Normal r
    /\ well_formed_answer prefix r.
Proof.
  intros Hm. destruct m as [tr [r | v]].
  - exists r. split; [reflexivity | by apply Hm].
  - rewrite try_catch_throw. eexists. split; [reflexivity |].
    apply error_response_well_formed.
Qed.

Lemma report_file_uploads_normal (prefix : string)
    (results : list UploadResult) (files : list File) (r : ToolResponse) :
  (Mcp.report_file_uploads results files).2 = Normal r ->
  well_formed_answer prefix r.
Proof.
  unfold Mcp.report_file_uploads, lift.
  destruct (0 <? _);
    destruct (Mcp.render_file_uploads (Mcp.successfulUploads results files));
    try discriminate.
  - rewrite bind_normal.
    destruct (Mcp.render_file_uploads (Mcp.failedUploads results files));
      discriminate.
  - intros [= <-]. apply success_well_formed.
Qed.

Lemma report_url_uploads_normal (prefix : string)
    (results : list UploadResult) (urls : list string) (r : ToolResponse) :
  (Mcp.report_url_uploads results urls).2 = Normal r ->
  well_formed_answer prefix r.
Proof.
  unfold Mcp.report_url_uploads. destruct (0 <? _); [discriminate |].
  intros [= <-]. apply success_well_formed.
Qed.

(** X6: whatever the input and whatever the file system and the service do,
    each handler ends normally, with an envelope that holds exactly one text
    item and an [isError] flag that is either left out or [true]; when the
    flag is [true], the text starts with the prefix of the handler's own
    [catch]. *)
Theorem handlers_always_answer (u : UTApi) (w : World) :
  (forall ps,
     exists r, outcome (Mcp.upload_files u w ps) = Normal r
       /\ well_formed_answer "Files upload failed: " r)
  /\ (forall urls,
     exists r, outcome (Mcp.upload_files_from_urls u w urls) = Normal r
       /\ well_formed_answer "Files by URL upload failed: " r)
  /\ (forall params,
     exists r, outcome (Mcp001.upload_file u w params) = Normal r
       /\ well_formed_answer "File upload failed: " r).
Proof.
  split; [| split].
  - intros ps. rewrite upload_files_read_stage.
    apply try_catch_well_formed. intros r.
    destruct (0 <? length (unreadable w ps)); [discriminate |].
    destruct (length (read_files w ps) =? 0); [discriminate |].
    rewrite bind_normal. unfold await.
    destruct (uploadFiles w u (read_files w ps)) as [results | e];
      [| discriminate].
    rewrite bind_normal. cbn [fst snd]. apply report_file_uploads_normal.
  - intros urls. unfold Mcp.upload_files_from_urls.
    apply try_catch_well_formed. intros r. unfold await.
    destruct (uploadFilesFromUrl w u urls) as [results | e]; [| discriminate].
    rewrite bind_normal. cbn [fst snd]. apply report_url_uploads_normal.
  - intros [[file n] t]. rewrite upload_file_run.
    destruct (fs_readFile w file) as [buffer | e];
      [| eexists; split; [reflexivity | apply error_response_well_formed]].
    destruct (uploadFiles_one w u (new_File buffer n t)) as [result | e];
      [| eexists; split; [reflexivity | apply error_response_well_formed]].
    destruct (error result);
      eexists; (split; [reflexivity |]);
      [apply error_response_well_formed | apply success_well_formed].
Qed.

(** ** Successes beside failures *)

Lemma occurs_partial_failure_ok (sub t1 t2 ok failed : string) :
  occurs sub ok -> occurs sub (Mcp.partial_failure_text t1 t2 ok failed).
Proof.
  intros H. unfold Mcp.partial_failure_text.
  do 3 apply occurs_app_l. by apply occurs_app_r.
Qed.

(** X7: when the service refuses some item of a batch, the error response
    still lists every item it accepted: the text holds, for each accepted
    file, its name with the printed payload, and for each accepted URL, the
    URL with the printed payload. *)
Theorem successes_are_listed_beside_failures (u : UTApi) (w : World) :
  (forall ps results i p r d,
     unreadable w ps = [] ->
     uploadFiles w u (read_files w ps) = inl results ->
     length results <= length ps ->
     Exists (fun r => is_Some (error r)) results ->
     ps !! i = Some p -> results !! i = Some r -> data r = Some d ->
     exists resp, outcome (Mcp.upload_files u w ps) = Normal resp
       /\ is_error resp = true
       /\ includes (response_text resp) (entry (fileName p) (Some d)) = true)
  /\ (forall urls results i url r d,
     uploadFilesFromUrl w u urls = inl results ->
     Exists (fun r => is_Some (error r)) results ->
     urls !! i = Some url -> results !! i = Some r -> data r = Some d ->
     exists resp, outcome (Mcp.upload_files_from_urls u w urls) = Normal resp
       /\ is_error resp = true
       /\ includes (response_text resp) (entry url (Some d)) = true).
Proof.
  split.
  - intros ps results i p r d Hr Hans Hlen Hex Hp Hres Hd.
    assert (ps <> []) as Hne by (by intros ->).
    destruct (read_files_all w ps Hr) as [Hl Hn].
    assert (exists f, read_files w ps !! i = Some f /\ name f = fileName p)
      as (f & Hf & Hname).
    { pose proof (f_equal (fun l => l !! i) Hn) as Hi. simpl in Hi.
      rewrite !list_lookup_fmap, Hp in Hi. simpl in Hi.
      destruct (read_files w ps !! i) as [f |]; [| discriminate].
      exists f. split; [done |]. by injection Hi. }
    assert ((f, r) ∈ successful_items results (read_files w ps)) as Hin.
    { unfold successful_items. apply list_elem_of_filter. split.
      - simpl. rewrite Hd. by eexists.
      - apply (list_elem_of_lookup_2 _ i). unfold zip.
        apply lookup_zip_with_Some. by exists f, r. }
    rewrite (upload_files_answered u w ps results Hr Hne Hans Hlen).
    eexists. split; [reflexivity |].
    unfold files_response, batch_response.
    apply (failed_items_length_iff results (read_files w ps)) in Hex as ->;
      [| lia].
    split; [reflexivity |].
    rewrite response_text_error. apply occurs_includes, occurs_app_l.
    apply occurs_partial_failure_ok, occurs_join.
    apply list_elem_of_fmap. exists (f, r). split; [| done].
    simpl. by rewrite Hname, Hd.
  - intros urls results i url r d Hans Hex Hurl Hres Hd.
    assert ((Some d, Some url) ∈ Mcp.successfulUploads results urls) as Hin.
    { unfold Mcp.successfulUploads. apply list_elem_of_filter. split.
      - by eexists.
      - pose proof (elem_of_lookup_imap_2
                      (fun idx result => (data result, urls !! idx))
                      results r i Hres) as H.
        simpl in H. by rewrite Hd, Hurl in H. }
    rewrite (upload_files_from_urls_reported u w urls results Hans).
    apply (failedUploads_length_iff results urls) in Hex as ->.
    eexists. split; [reflexivity |]. split; [reflexivity |].
    rewrite response_text_error. apply occurs_includes, occurs_app_l.
    apply occurs_partial_failure_ok, occurs_join.
    apply list_elem_of_fmap. by exists (Some d, Some url).
Qed.

Lemma successes_are_listed_beside_failures_witness :
  (exists resp,
     outcome (Mcp.upload_files Demo.client Demo.world
                [Demo.a_txt; Demo.big_bin]) = Normal resp
     /\ is_error resp = true
     /\ includes (response_text resp) "a.txt: {key:a.txt}" = true)
  /\ (exists resp,
     outcome (Mcp.upload_files_from_urls Demo.client Demo.world
                ["big.bin"; "https://x.test/a.png"]) = Normal resp
     /\ is_error resp = true
     /\ includes (response_text resp)
          "https://x.test/a.png: {key:https://x.test/a.png}" = true).
Proof.
  pose proof (successes_are_listed_beside_failures Demo.client Demo.world)
    as [Hfiles Hurls].
  split.
  - apply (Hfiles [Demo.a_txt; Demo.big_bin]
             (Demo.answer <$> ["a.txt"; "big.bin"]) 0 Demo.a_txt
             (Demo.answer "a.txt") (Demo.payload "a.txt"));
      try reflexivity.
    apply Exists_cons_tl, Exists_cons_hd. by eexists.
  - apply (Hurls ["big.bin"; "https://x.test/a.png"]
             (Demo.answer <$> ["big.bin"; "https://x.test/a.png"]) 1
             "https://x.test/a.png" (Demo.answer "https://x.test/a.png")
             (Demo.payload "https://x.test/a.png"));
      try reflexivity.
    apply Exists_cons_hd. by eexists.
Defined.

(** ** Answers that are shorter or longer than the batch *)

Lemma batch_response_take (prefix t1 t2 : string) {I : Type} (id : I -> string)
    (results : list UploadResult) (inputs : list I) :
  batch_response prefix t1 t2 id results inputs
  = batch_response prefix t1 t2 id results (take (length results) inputs).
Proof.
  unfold batch_response, failed_items, successful_items.
  by rewrite zip_with_take_l.
Qed.

(** X8: the handlers pair the answers of the service with the inputs by
    position and walk the answers, not the inputs.  When the service gives
    fewer answers than it was sent items, the items beyond the last answer
    are left out without a word: the response is the one of the batch cut to
    the length of the answer.  An empty answer to a batch of any size gives
    the success response with an empty list. *)
Theorem short_answer_drops_the_rest (u : UTApi) (w : World) :
  (forall urls results,
     uploadFilesFromUrl w u urls = inl results ->
     length results <= length urls ->
     outcome (Mcp.upload_files_from_urls u w urls)
     = Normal (urls_response results (take (length results) urls)))
  /\ (forall ps results,
     unreadable w ps = [] -> ps <> [] ->
     uploadFiles w u (read_files w ps) = inl results ->
     length results <= length ps ->
     outcome (Mcp.upload_files u w ps)
     = Normal (files_response results
                 (take (length results) (read_files w ps))))
  /\ (forall urls,
     uploadFilesFromUrl w u urls = inl [] ->
     outcome (Mcp.upload_files_from_urls u w urls)
     = Normal {| content :=
                   text_content
                     (Mcp.success_text "Successfully uploaded files by URL: " "");
                 isError := None |})
  /\ (forall ps,
     unreadable w ps = [] -> ps <> [] ->
     uploadFiles w u (read_files w ps) = inl [] ->
     outcome (Mcp.upload_files u w ps)
     = Normal {| content :=
                   text_content
                     (Mcp.success_text "Successfully uploaded files: " "");
                 isError := None |}).
Proof.
  split; [| split; [| split]].
  - intros urls results Hans Hlen.
    rewrite (upload_files_from_urls_answered u w urls results Hans Hlen).
    unfold urls_response. by rewrite <- batch_response_take.
  - intros ps results Hr Hne Hans Hlen.
    rewrite (upload_files_answered u w ps results Hr Hne Hans Hlen).
    unfold files_response. by rewrite <- batch_response_take.
  - intros urls Hans.
    by rewrite (upload_files_from_urls_reported u w urls [] Hans).
  - intros ps Hr Hne Hans.
    rewrite (upload_files_answered u w ps [] Hr Hne Hans) by (simpl; lia).
    unfold files_response, batch_response, failed_items, successful_items.
    by rewrite !zip_with_nil_r.
Qed.

Lemma short_answer_drops_the_rest_witness :
  outcome (Mcp.upload_files_from_urls Demo.client Demo.mute
             ["https://x.test/a.png"; "https://x.test/b.png"])
  = Normal {| content :=
                text_content
                  (Mcp.success_text "Successfully uploaded files by URL: " "");
              isError := None |}
  /\ outcome (Mcp.upload_files Demo.client Demo.mute [Demo.a_txt; Demo.b_png])
     = Normal {| content :=
                   text_content
                     (Mcp.success_text "Successfully uploaded files: " "");
                 isError := None |}.
Proof.
  pose proof (short_answer_drops_the_rest Demo.client Demo.mute)
    as (_ & _ & Hurls & Hfiles).
  split.
  - apply Hurls. reflexivity.
  - apply Hfiles; [reflexivity | discriminate | reflexivity].
Defined.

Lemma render_file_uploads_throws
    (uploads : list (option JsValue * option File)) (v : JsValue) :
  Mcp.render_file_uploads uploads = Throw v -> v = TypeError_undefined "name".
Proof.
  unfold Mcp.render_file_uploads, Array_map. generalize 0.
  induction uploads as [| [d [f |]] uploads IH]; intros i; cbn.
  - discriminate.
  - specialize (IH (S i)).
    destruct (Array_map_from _ (S i) uploads); [discriminate |].
    intros [= <-]. by apply IH.
  - by intros [= <-].
Qed.

Lemma render_file_uploads_undefined
    (uploads : list (option JsValue * option File)) (d : option JsValue) :
  (d, None) ∈ uploads ->
  Mcp.render_file_uploads uploads = Throw (TypeError_undefined "name").
Proof.
  intros Hin.
  destruct (Mcp.render_file_uploads uploads) as [s | v] eqn:E;
    [| by rewrite (render_file_uploads_throws uploads v E)].
  exfalso. revert s E. unfold Mcp.render_file_uploads, Array_map. generalize 0.
  induction uploads as [| [d' [f |]] uploads IH]; intros i s; cbn.
  - by apply elem_of_nil in Hin.
  - apply elem_of_cons in Hin as [[= ] | Hin].
    destruct (Array_map_from _ (S i) uploads) as [l |] eqn:El; [| discriminate].
    intros _. apply (IH Hin (S i) (Array_join ", " l)).
    by rewrite El.
  - discriminate.
Qed.

(** X9: when the service gives [upload-files] more answers than it was sent
    files, and such a surplus answer carries a payload or an error, building
    the report fails on the missing file: the response is an error whose
    text is the message of the [TypeError], and no upload is reported, not
    even the accepted ones.  [upload-files-from-urls] does not fail there:
    it prints a surplus error under the name [undefined]. *)
Theorem surplus_answer_breaks_the_files_report (u : UTApi) (w : World) :
  (forall ps results i r,
     unreadable w ps = [] -> ps <> [] ->
     uploadFiles w u (read_files w ps) = inl results ->
     length ps <= i -> results !! i = Some r ->
     is_Some (data r) \/ is_Some (error r) ->
     Mcp.upload_files u w ps
     = (reads ps ++ [EvUploadFiles (read_files w ps)],
        Normal (error_response "Files upload failed: "
                  "Cannot read properties of undefined (reading 'name')")))
  /\ (forall urls results i r e,
     uploadFilesFromUrl w u urls = inl results ->
     length urls <= i -> results !! i = Some r -> error r = Some e ->
     exists resp,
       outcome (Mcp.upload_files_from_urls u w urls) = Normal resp
       /\ is_error resp = true
       /\ includes (response_text resp) (entry "undefined" (Some e)) = true).
Proof.
  split.
  - intros ps results i r Hr Hne Hans Hi Hres Hde.
    rewrite upload_files_upload_stage, Hans by done. f_equal.
    destruct (read_files_all w ps Hr) as [Hl _].
    assert (read_files w ps !! i = None) as Hnone
      by (apply lookup_ge_None; lia).
    assert (Mcp.report_file_uploads results (read_files w ps)
            = ([], Throw (TypeError_undefined "name"))) as ->; [| reflexivity].
    assert (forall g : UploadResult -> option JsValue, is_Some (g r) ->
              (g r, None)
              ∈ filter (fun result : option JsValue * option File =>
                          is_Some result.1)
                  (imap (fun idx result => (g result, read_files w ps !! idx))
                     results)) as Hmem.
    { intros g Hg. apply list_elem_of_filter. split; [done |].
      pose proof (elem_of_lookup_imap_2
                    (fun idx result => (g result, read_files w ps !! idx))
                    results r i Hres) as H.
      simpl in H. by rewrite Hnone in H. }
    unfold Mcp.report_file_uploads, lift.
    set (successes := Mcp.successfulUploads results (read_files w ps)).
    set (failures := Mcp.failedUploads results (read_files w ps)).
    destruct Hde as [Hd | He].
    + rewrite (render_file_uploads_undefined successes _ (Hmem data Hd)).
      by destruct (0 <? _).
    + rewrite (list_nonempty_length failures _ (Hmem error He)).
      rewrite (render_file_uploads_undefined failures _ (Hmem error He)).
      destruct (Mcp.render_file_uploads successes) as [s | v] eqn:Es.
      * by rewrite bind_normal.
      * by rewrite (render_file_uploads_throws _ v Es).
  - intros urls results i r e Hans Hi Hres He.
    assert (urls !! i = None) as Hnone by (by apply lookup_ge_None).
    assert ((Some e, None) ∈ Mcp.failedUploads results urls) as Hin.
    { unfold Mcp.failedUploads. apply list_elem_of_filter. split.
      - by eexists.
      - pose proof (elem_of_lookup_imap_2
                      (fun idx result => (error result, urls !! idx))
                      results r i Hres) as H.
        simpl in H. by rewrite He, Hnone in H. }
    rewrite (upload_files_from_urls_reported u w urls results Hans).
    rewrite (list_nonempty_length _ _ Hin).
    eexists. split; [reflexivity |]. split; [reflexivity |].
    rewrite response_text_error. apply occurs_includes, occurs_app_l.
    apply occurs_partial_failure_failed, occurs_join.
    apply list_elem_of_fmap. by exists (Some e, None).
Qed.

Lemma surplus_answer_breaks_the_files_report_witness :
  outcome (Mcp.upload_files Demo.client Demo.chatty [Demo.a_txt])
  = Normal (error_response "Files upload failed: "
              "Cannot read properties of undefined (reading 'name')")
  /\ (exists resp,
     outcome (Mcp.upload_files_from_urls Demo.client Demo.chatty
                ["https://x.test/a.png"]) = Normal resp
     /\ is_error resp = true
     /\ includes (response_text resp) "undefined: {code:TOO_LARGE}" = true).
Proof.
  pose proof (surplus_answer_breaks_the_files_report Demo.client Demo.chatty)
    as [Hfiles Hurls].
  split.
  - rewrite (Hfiles [Demo.a_txt] [Demo.answer "a.txt"; Demo.answer "big.bin"]
               1 (Demo.answer "big.bin"));
      [reflexivity | reflexivity | discriminate | reflexivity | reflexivity
      | reflexivity |].
    right. by eexists.
  - apply (Hurls ["https://x.test/a.png"]
             [Demo.answer "https://x.test/a.png"; Demo.answer "big.bin"]
             1 (Demo.answer "big.bin") Demo.too_large); reflexivity.
Defined.

(** ** The two versions on one file *)

(** X10: for a service that treats a batch of one file as it treats the
    file alone, [upload-files] of version 0.0.2 on a batch of one file and
    [upload-file] of version 0.0.1 on that file make the same calls (the
    upload being a batch of one) and agree on whether the response is an
    error. *)
Theorem batch_of_one_agrees_with_single_upload (u : UTApi) (w : World)
    (p : FileParam) :
  (forall file,
     uploadFiles w u [file]
     = match uploadFiles_one w u file with
       | inl r => inl [r]
       | inr e => inr e
       end) ->
  exists r1 rn,
    outcome (Mcp001.upload_file u w (filePath p, fileName p, fileType p))
    = Normal r1
    /\ outcome (Mcp.upload_files u w [p]) = Normal rn
    /\ is_error r1 = is_error rn
    /\ trace (Mcp.upload_files u w [p])
       = as_batch_call
         <$> trace (Mcp001.upload_file u w (filePath p, fileName p, fileType p)).
Proof.
  intros Hsvc. rewrite upload_file_run.
  destruct (fs_readFile w (filePath p)) as [buffer | reason] eqn:Er.
  - assert (unreadable w [p] = []) as Hu.
    { apply unreadable_nil_iff. intros q ->%list_elem_of_singleton.
      by exists buffer. }
    assert (read_files w [p] = [new_File buffer (fileName p) (fileType p)])
      as Hfiles.
    { pose proof (read_files_pointwise w [p] Hu) as HF.
      inversion HF as [| ? f ? fs (b & Hb & ->) Hrest]; subst.
      inversion Hrest; subst. rewrite Er in Hb. by injection Hb as <-. }
    rewrite upload_files_upload_stage, Hfiles, Hsvc by done.
    destruct (uploadFiles_one w u (new_File buffer (fileName p) (fileType p)))
      as [result | e].
    + rewrite report_file_uploads_settles by (simpl; lia).
      do 2 eexists. split; [reflexivity |]. split; [reflexivity |].
      split; [| reflexivity].
      unfold files_response. rewrite is_error_batch_response.
      unfold failed_items. cbn [zip_with]. rewrite filter_cons, filter_nil.
      cbn [snd]. destruct (error result); reflexivity.
    + do 2 eexists. repeat split.
  - assert (unreadable w [p] <> []) as Hu.
    { change [p] with ([] ++ p :: @nil FileParam).
      by rewrite (unreadable_single w [] [] p reason). }
    rewrite (upload_files_read_abort u w [p] Hu).
    do 2 eexists. repeat split.
Qed.

Lemma batch_of_one_agrees_with_single_upload_witness :
  exists r1 rn,
    outcome (Mcp001.upload_file Demo.client Demo.world
               ("/tmp/big.bin", "big.bin", "application/octet-stream"))
    = Normal r1
    /\ outcome (Mcp.upload_files Demo.client Demo.world [Demo.big_bin])
       = Normal rn
    /\ is_error r1 = is_error rn
    /\ trace (Mcp.upload_files Demo.client Demo.world [Demo.big_bin])
       = as_batch_call
         <$> trace (Mcp001.upload_file Demo.client Demo.world
                      ("/tmp/big.bin", "big.bin", "application/octet-stream")).
Proof.
  apply (batch_of_one_agrees_with_single_upload Demo.client Demo.world
           Demo.big_bin).
  intros file. reflexivity.
Defined.

(** ** The arguments of [upload-files] *)

Lemma z_file_param_encode (p : FileParam) :
  Zod.z_file_param (encode_file_param p) = Some p.
Proof.
  destruct p as [path nm ty]. reflexivity.
Qed.

(** X11: the arguments a client builds for a list of files, an object whose
    [files] property is the array of the [{ filePath, fileName, fileType }]
    objects, pass the schema declared for [upload-files], whatever the
    strings are and also when the list is empty; the tool is found by its
    exact name, and the handler receives the same list in the same order.
    (The dispatch of the SDK and the parsers of zod are modelled.) *)
Theorem upload_files_arguments_round_trip (tok : option string)
    (server : McpServer) (w : World) (ps : list FileParam) :
  Mcp.createMCPUploadThing tok = Normal server ->
  Mcp.upload_files_schema w (encode_files_args ps) = Some ps
  /\ call_tool server w "upload-files" (encode_files_args ps)
     = Ran (Mcp.upload_files {| token := default "" tok |} w ps).
Proof.
  intros Hs.
  assert (Mcp.upload_files_schema w (encode_files_args ps) = Some ps) as Hparse.
  { unfold Mcp.upload_files_schema, encode_files_args, Zod.z_property.
    rewrite lookup_singleton_eq. cbn [mbind option_bind Zod.z_array].
    apply mapM_fmap_Some. intros p. apply z_file_param_encode. }
  split; [exact Hparse |].
  rewrite (created_server tok server Hs). unfold call_tool.
  cbn [registered find tool_name Mcp.upload_files_from_urls_tool
       Mcp.upload_files_tool].
  rewrite bool_decide_eq_false_2 by done.
  rewrite bool_decide_eq_true_2 by done.
  cbn [tool_schema tool_callback Mcp.upload_files_tool]. by rewrite Hparse.
Qed.

Lemma upload_files_arguments_round_trip_witness :
  Mcp.upload_files_schema Demo.world
    (encode_files_args [Demo.a_txt; Demo.missing_txt])
  = Some [Demo.a_txt; Demo.missing_txt].
Proof.
  apply (upload_files_arguments_round_trip (Some "sk_live_demo") _ Demo.world
           [Demo.a_txt; Demo.missing_txt] eq_refl).
Defined.
